(** * Pixel Quest: a shallow embedding of [game.py]

    The simulation core of the platformer (rectangles, platforms, coins,
    patrolling enemies, the player, the level builder and the body of the
    main loop) is transcribed function by function from [game.py].
    Drawing code only reads the simulation state and is left out, except
    for the coin counter whose numbers are stated by the specification.

    Conventions.
    - Python integers are [Z].
    - [vel_x] and [vel_y] of the player are Python floats; they are
      idealised as exact rationals ([Q]).  Every statement below either
      quantifies over all velocities or uses values that binary floating
      point represents exactly.
    - A [pygame.sprite.Group] is iterated in insertion order; it is a list.
    - Python attribute mutation becomes explicit state passing: a method
      [m(self, a)] is a function [m a self] returning the new object. *)

From Stdlib Require Import ZArith QArith Qabs List Bool Lia Lqa.
Import ListNotations.

Local Open Scope Z_scope.

(** ** Constants *)

Definition SCREEN_W : Z := 800.
Definition SCREEN_H : Z := 600.
Definition FPS : Z := 60.
Definition GRAVITY : Q := 0.6%Q.
Definition JUMP_FORCE : Z := -14.
Definition PLAYER_SPEED : Z := 4.

Definition Colour : Type := Z * Z * Z.
Definition GROUND : Colour := (34, 139, 34).
Definition PLAT : Colour := (80, 80, 80).

(** ** Float helpers (on the rational idealisation) *)

(** [a < b] as a boolean. *)
Definition Qltb (a b : Q) : bool := negb (Qle_bool b a).

(** Python's [int(f)]: truncation towards zero. *)
Definition int_of_float (f : Q) : Z := Z.quot (Qnum f) (Zpos (Qden f)).

(** ** pygame.Rect *)

Module Rect.

Record t : Type := mk { x : Z; y : Z; w : Z; h : Z }.

Definition left (r : t) : Z := x r.
Definition top (r : t) : Z := y r.
Definition right (r : t) : Z := x r + w r.
Definition bottom (r : t) : Z := y r + h r.
(* pygame computes the centre with C integer division *)
Definition centerx (r : t) : Z := x r + Z.quot (w r) 2.
Definition centery (r : t) : Z := y r + Z.quot (h r) 2.

Definition set_x (v : Z) (r : t) : t := mk v (y r) (w r) (h r).
Definition set_y (v : Z) (r : t) : t := mk (x r) v (w r) (h r).
Definition set_left (v : Z) (r : t) : t := set_x v r.
Definition set_top (v : Z) (r : t) : t := set_y v r.
Definition set_right (v : Z) (r : t) : t := set_x (v - w r) r.
Definition set_bottom (v : Z) (r : t) : t := set_y (v - h r) r.
Definition set_centery (v : Z) (r : t) : t := set_y (v - Z.quot (h r) 2) r.

(** [Surface((w, h)).get_rect(topleft=(x, y))] *)
Definition of_topleft (sw sh px py : Z) : t := mk px py sw sh.
(** [Surface((w, h)).get_rect(center=(cx, cy))] *)
Definition of_center (sw sh cx cy : Z) : t :=
  mk (cx - Z.quot sw 2) (cy - Z.quot sh 2) sw sh.

(** [a.colliderect(b)]: rectangles of zero width or height collide with
    nothing; otherwise the open intervals must meet on both axes. *)
Definition colliderect (a b : t) : bool :=
  if (w a =? 0) || (h a =? 0) || (w b =? 0) || (h b =? 0) then false
  else (Z.min (x a) (x a + w a) <? Z.max (x b) (x b + w b))
    && (Z.min (y a) (y a + h a) <? Z.max (y b) (y b + h b))
    && (Z.min (x b) (x b + w b) <? Z.max (x a) (x a + w a))
    && (Z.min (y b) (y b + h b) <? Z.max (y a) (y a + h a)).

(** Width and height are positive (the data model's rectangle invariant). *)
Definition positive (r : t) : Prop := 0 < w r /\ 0 < h r.

End Rect.

(** ** Platform (static terrain) *)

Module Platform.

Record t : Type := mk { rect : Rect.t; color : Colour }.

(** [Platform(x, y, w, h, color=PLAT)] *)
Definition init (px py pw ph : Z) (c : Colour) : t :=
  mk (Rect.of_topleft pw ph px py) c.

End Platform.

(** ** Coin *)

(** [int(3 * pygame.math.Vector2(0, 1).rotate(a).y)] for [a = 6 * k]
    degrees, [0 <= k < 60].  Rotating (0, 1) by [a] gives the y component
    [cos a]; the entries are [3 * cos (6 k)] truncated towards zero. *)
Definition bob_table : list Z :=
  [ 3;  2;  2;  2;  2;  2;  2;  2;  2;  1;   (*   0 ..  54 degrees *)
    1;  1;  0;  0;  0;  0;  0;  0;  0; -1;   (*  60 .. 114 *)
   -1; -1; -2; -2; -2; -2; -2; -2; -2; -2;   (* 120 .. 174 *)
   -3; -2; -2; -2; -2; -2; -2; -2; -2; -1;   (* 180 .. 234 *)
   -1; -1;  0;  0;  0;  0;  0;  0;  0;  1;   (* 240 .. 294 *)
    1;  1;  2;  2;  2;  2;  2;  2;  2;  2 ]. (* 300 .. 354 *)

(** The angle [timer * 6] only matters modulo 360 degrees. *)
Definition bob_offset (timer : Z) : Z :=
  nth (Z.to_nat (timer mod 60)) bob_table 0.

Module Coin.

Record t : Type := mk { rect : Rect.t; _bob_timer : Z }.

(** [Coin(x, y)]; [r] is the value drawn by [random.randint(0, 60)]. *)
Definition init (cx cy : Z) (r : Z) : t :=
  mk (Rect.of_center 20 20 cx cy) r.

Definition update (c : t) : t :=
  let timer := _bob_timer c + 1 in
  let offset := bob_offset timer in
  mk (Rect.set_centery (Rect.centery (rect c) + offset / 6) (rect c)) timer.

End Coin.

(** ** Enemy *)

(** [pygame.sprite.spritecollideany(sprite, group)] on the rectangles. *)
Definition spritecollideany (r : Rect.t) (group : list Rect.t) : option Rect.t :=
  find (Rect.colliderect r) group.

Module Enemy.

Record t : Type := mk {
  rect : Rect.t;
  vel_x : Z;
  patrol_min : Z;
  patrol_max : Z
}.

Definition width : Z := 36.
Definition height : Z := 42.

(** Outcome of a constructor call: the object, or a raised exception. *)
Inductive construction : Type :=
| Constructed (e : t)
| ConstructionError.

(** Body of [__init__(self, x, y, patrol_min, patrol_max)]: the fields are
    stored as given; no argument is inspected. *)
Definition init (ex ey pmin pmax : Z) : t :=
  {| rect := Rect.of_topleft width height ex ey;
     vel_x := 2;                 (* walking speed *)
     patrol_min := pmin;         (* left patrol boundary (x) *)
     patrol_max := pmax |}.      (* right patrol boundary (x) *)

(** pygame stores rectangle coordinates as C ints. *)
Definition C_INT_MIN : Z := -2147483648.
Definition C_INT_MAX : Z := 2147483647.
Definition fits_c_int (v : Z) : bool := (C_INT_MIN <=? v) && (v <=? C_INT_MAX).

(** The call [Enemy(x, y, patrol_min, patrol_max)].  [__init__] contains no
    [raise] and no check of its own; the one step that can fail is
    [get_rect(topleft=(x, y))], which raises [TypeError] when a coordinate
    does not fit a C int.  The patrol bounds are only stored. *)
Definition construct (ex ey pmin pmax : Z) : construction :=
  if fits_c_int ex && fits_c_int ey
  then Constructed (init ex ey pmin pmax)
  else ConstructionError.

Definition set_rect (r : Rect.t) (e : t) : t :=
  mk r (vel_x e) (patrol_min e) (patrol_max e).
Definition set_vel_x (v : Z) (e : t) : t :=
  mk (rect e) v (patrol_min e) (patrol_max e).

Definition update (platforms : list Platform.t) (e : t) : t :=
  let e := set_rect (Rect.set_x (Rect.x (rect e) + vel_x e) (rect e)) e in
  (* Reverse at patrol boundaries *)
  let e :=
    if (Rect.left (rect e) <=? patrol_min e)
       || (patrol_max e <=? Rect.right (rect e))
    then
      let e := set_vel_x (vel_x e * -1) e in
      set_rect (Rect.set_x (Rect.x (rect e) + vel_x e * 2) (rect e)) e
    else e in
  (* Keep on top of platforms *)
  let e := set_rect (Rect.set_y (Rect.y (rect e) + 1) (rect e)) e in
  match spritecollideany (rect e) (map Platform.rect platforms) with
  | Some hit => set_rect (Rect.set_bottom (Rect.top hit) (rect e)) e
  | None => set_rect (Rect.set_y (Rect.y (rect e) - 1) (rect e)) e
  end.

End Enemy.

(** ** Keyboard *)

Inductive Key : Type :=
| K_LEFT | K_RIGHT | K_UP | K_a | K_d | K_SPACE | K_ESCAPE | K_RETURN
| K_other (code : Z).

(** [pygame.key.get_pressed()]: which keys are held during this frame. *)
Definition Keys : Type := Key -> bool.

(** ** Player *)

Module Player.

Record t : Type := mk {
  rect : Rect.t;
  vel_x : Q;
  vel_y : Q;
  on_ground : bool;
  max_health : Z;
  health : Z;
  score : Z;
  invincible_timer : Z;
  facing_right : bool;
  walk_frame : Z
}.

Definition width : Z := 32.
Definition height : Z := 48.

(** [Player(x, y)] *)
Definition init (px py : Z) : t :=
  let max_health := 100 in
  {| rect := Rect.of_topleft width height px py;
     vel_x := 0; vel_y := 0; on_ground := false;
     max_health := max_health; health := max_health; score := 0;
     invincible_timer := 0; facing_right := true; walk_frame := 0 |}.

Definition set_rect (r : Rect.t) (p : t) : t :=
  mk r (vel_x p) (vel_y p) (on_ground p) (max_health p) (health p) (score p)
     (invincible_timer p) (facing_right p) (walk_frame p).
Definition set_vel_x (v : Q) (p : t) : t :=
  mk (rect p) v (vel_y p) (on_ground p) (max_health p) (health p) (score p)
     (invincible_timer p) (facing_right p) (walk_frame p).
Definition set_vel_y (v : Q) (p : t) : t :=
  mk (rect p) (vel_x p) v (on_ground p) (max_health p) (health p) (score p)
     (invincible_timer p) (facing_right p) (walk_frame p).
Definition set_on_ground (b : bool) (p : t) : t :=
  mk (rect p) (vel_x p) (vel_y p) b (max_health p) (health p) (score p)
     (invincible_timer p) (facing_right p) (walk_frame p).
Definition set_health (v : Z) (p : t) : t :=
  mk (rect p) (vel_x p) (vel_y p) (on_ground p) (max_health p) v (score p)
     (invincible_timer p) (facing_right p) (walk_frame p).
Definition set_score (v : Z) (p : t) : t :=
  mk (rect p) (vel_x p) (vel_y p) (on_ground p) (max_health p) (health p) v
     (invincible_timer p) (facing_right p) (walk_frame p).
Definition set_invincible_timer (v : Z) (p : t) : t :=
  mk (rect p) (vel_x p) (vel_y p) (on_ground p) (max_health p) (health p)
     (score p) v (facing_right p) (walk_frame p).
Definition set_facing_right (b : bool) (p : t) : t :=
  mk (rect p) (vel_x p) (vel_y p) (on_ground p) (max_health p) (health p)
     (score p) (invincible_timer p) b (walk_frame p).
Definition set_walk_frame (v : Z) (p : t) : t :=
  mk (rect p) (vel_x p) (vel_y p) (on_ground p) (max_health p) (health p)
     (score p) (invincible_timer p) (facing_right p) v.

(** The three conditions [handle_input] reads from the keyboard state. *)
Definition left_held (keys : Keys) : bool := keys K_LEFT || keys K_a.
Definition right_held (keys : Keys) : bool := keys K_RIGHT || keys K_d.
Definition jump_held (keys : Keys) : bool := keys K_SPACE || keys K_UP.

(** The horizontal branch of [handle_input]; the boolean is [moving].
    The friction product is exact here, where the source rounds it to a
    double. *)
Definition handle_horizontal (keys : Keys) (p : t) : t * bool :=
  if left_held keys then
    (set_facing_right false (set_vel_x (inject_Z (- PLAYER_SPEED)) p), true)
  else if right_held keys then
    (set_facing_right true (set_vel_x (inject_Z PLAYER_SPEED) p), true)
  else
    (* Friction / deceleration *)
    let p := set_vel_x (vel_x p * 0.75)%Q p in
    ((if Qltb (Qabs (vel_x p)) 0.5%Q then set_vel_x 0 p else p), false).

Definition handle_input (keys : Keys) (p : t) : t :=
  let '(p, moving) := handle_horizontal keys p in
  let p :=
    if jump_held keys && on_ground p
    then set_on_ground false (set_vel_y (inject_Z JUMP_FORCE) p)
    else p in
  if moving && on_ground p then set_walk_frame (walk_frame p + 1) p else p.

(** The sum is exact here, where the source rounds it to a double. *)
Definition apply_gravity (p : t) : t :=
  let p := set_vel_y (vel_y p + GRAVITY)%Q p in
  (* Terminal velocity cap *)
  if Qltb 20 (vel_y p) then set_vel_y 20 p else p.

(** Body of the horizontal loop of [move_and_collide]. *)
Definition collide_horizontal (p : t) (plat : Platform.t) : t :=
  if Rect.colliderect (rect p) (Platform.rect plat) then
    let p :=
      if Qltb 0 (vel_x p) then
        set_rect (Rect.set_right (Rect.left (Platform.rect plat)) (rect p)) p
      else if Qltb (vel_x p) 0 then
        set_rect (Rect.set_left (Rect.right (Platform.rect plat)) (rect p)) p
      else p in
    set_vel_x 0 p
  else p.

(** Body of the vertical loop of [move_and_collide]. *)
Definition collide_vertical (p : t) (plat : Platform.t) : t :=
  if Rect.colliderect (rect p) (Platform.rect plat) then
    if Qltb 0 (vel_y p) then            (* falling: land on top *)
      set_on_ground true (set_vel_y 0
        (set_rect (Rect.set_bottom (Rect.top (Platform.rect plat)) (rect p)) p))
    else if Qltb (vel_y p) 0 then       (* rising: hit ceiling *)
      set_vel_y 0
        (set_rect (Rect.set_top (Rect.bottom (Platform.rect plat)) (rect p)) p)
    else p
  else p.

Definition move_horizontal (platforms : list Platform.t) (p : t) : t :=
  let p :=
    set_rect (Rect.set_x (Rect.x (rect p) + int_of_float (vel_x p)) (rect p)) p in
  fold_left collide_horizontal platforms p.

Definition move_vertical (platforms : list Platform.t) (p : t) : t :=
  let p := set_on_ground false p in
  let p :=
    set_rect (Rect.set_y (Rect.y (rect p) + int_of_float (vel_y p)) (rect p)) p in
  fold_left collide_vertical platforms p.

Definition move_and_collide (platforms : list Platform.t) (p : t) : t :=
  move_vertical platforms (move_horizontal platforms p).

Definition take_damage (amount : Z) (p : t) : t :=
  if 0 <? invincible_timer p then p
  else
    let p := set_health (health p - amount) p in
    let p := set_invincible_timer 90 p in
    if health p <? 0 then set_health 0 p else p.

Definition update (keys : Keys) (platforms : list Platform.t) (p : t) : t :=
  let p := handle_input keys p in
  let p := apply_gravity p in
  let p := move_and_collide platforms p in
  let p :=
    if 0 <? invincible_timer p
    then set_invincible_timer (invincible_timer p - 1) p else p in
  (* Keep player within horizontal screen bounds *)
  let p :=
    if Rect.left (rect p) <? 0 then set_rect (Rect.set_left 0 (rect p)) p
    else p in
  if SCREEN_W <? Rect.right (rect p)
  then set_rect (Rect.set_right SCREEN_W (rect p)) p else p.

Definition is_dead (p : t) : bool := health p <=? 0.

(** [draw(self, surface)]: [None] when the blink effect skips the blit;
    otherwise whether the image is flipped, and the rectangle it is
    blitted at. *)
Definition draw (p : t) : option (bool * Rect.t) :=
  if (0 <? invincible_timer p) && ((invincible_timer p / 5) mod 2 =? 0)
  then None
  else Some (negb (facing_right p), rect p).

End Player.

(** ** Level builder *)

Definition plat_data : list (Z * Z * Z * Z) :=
  [ (100, 460, 140, 18);
    (280, 380, 120, 18);
    (430, 460, 110, 18);
    (570, 350, 130, 18);
    (680, 430, 100, 18);
    (200, 280, 100, 18);
    (350, 210, 120, 18);
    (520, 260, 90, 18);
    (620, 170, 110, 18);
    (0, 300, 80, 18) ].

Definition coin_positions : list (Z * Z) :=
  [ (170, 435); (310, 355); (490, 435); (620, 320);
    (740, 405); (250, 255); (410, 185); (570, 235);
    (670, 145); (40, 275); (400, 535); (600, 535);
    (200, 535) ].

(** (x, y, patrol_left, patrol_right) *)
Definition enemy_data : list (Z * Z * Z * Z) :=
  [ (110, 518, 50, 260);
    (400, 518, 300, 700);
    (283, 338, 280, 400);
    (571, 308, 570, 700);
    (203, 238, 200, 300) ].

(** The only randomness of [build_level] is the bob timer drawn by each
    [Coin(...)]; [rnd i] is the value drawn for the [i]-th coin. *)
Definition build_level (rnd : nat -> Z)
  : Player.t * list Platform.t * list Coin.t * list Enemy.t :=
  let ground := Platform.init 0 560 800 40 GROUND in
  let platforms :=
    [ground]
      ++ map (fun '(x, y, w, h) => Platform.init x y w h PLAT) plat_data in
  let coins :=
    map (fun '(i, (cx, cy)) => Coin.init cx cy (rnd i))
        (combine (seq 0 (length coin_positions)) coin_positions) in
  let enemies :=
    map (fun '(ex, ey, pmin, pmax) => Enemy.init ex ey pmin pmax) enemy_data in
  let player := Player.init 60 490 in
  (player, platforms, coins, enemies).

(** ** Main loop *)

Inductive State : Type := start | playing | game_over | win.

Inductive Event : Type :=
| QUIT
| KEYDOWN (key : Key)
| OtherEvent.

(** The local variables of [main] that live across iterations. *)
Record World : Type := mkWorld {
  state : State;
  player : Player.t;
  platforms : list Platform.t;
  coins : list Coin.t;
  enemies : list Enemy.t;
  total_coins : Z
}.

Definition len {A : Type} (l : list A) : Z := Z.of_nat (length l).

(** What one iteration reads from the outside: the held keys, the event
    queue, and the random draws a rebuild of the level would consume. *)
Record Frame : Type := mkFrame {
  keys : Keys;
  events : list Event;
  rnd : nat -> Z
}.

(** State of [main] on entry to the [while] loop. *)
Definition main_init (rnd0 : nat -> Z) : World :=
  let '(player, platforms, coins, enemies) := build_level rnd0 in
  mkWorld start player platforms coins enemies (len coins).

(** Reset / start game. *)
Definition restart (rnd : nat -> Z) : World :=
  let '(player, platforms, coins, enemies) := build_level rnd in
  mkWorld playing player platforms coins enemies (len coins).

Definition restartable (s : State) : bool :=
  match s with start | game_over | win => true | playing => false end.

(** The event loop; [None] is [pygame.quit(); sys.exit()]. *)
Fixpoint handle_events (rnd : nat -> Z) (evs : list Event) (w : World)
  : option World :=
  match evs with
  | [] => Some w
  | QUIT :: _ => None
  | KEYDOWN K_ESCAPE :: _ => None
  | KEYDOWN K_RETURN :: rest =>
      handle_events rnd rest (if restartable (state w) then restart rnd else w)
  | _ :: rest => handle_events rnd rest w
  end.

(** [pygame.sprite.spritecollide(player, coins, True)]: the coins hit, and
    the group with them removed. *)
Definition spritecollide_kill (r : Rect.t) (group : list Coin.t)
  : list Coin.t * list Coin.t :=
  partition (fun c => Rect.colliderect r (Coin.rect c)) group.

(** Enemy collision: player takes damage. *)
Definition enemy_contact (enemies : list Enemy.t) (player : Player.t) : Player.t :=
  match spritecollideany (Player.rect player) (map Enemy.rect enemies) with
  | Some _ => Player.take_damage 20 player
  | None => player
  end.

(** Fell off screen (below ground level). *)
Definition fall_off_screen (player : Player.t) : Player.t :=
  if SCREEN_H + 50 <? Rect.top (Player.rect player)
  then Player.set_health 0 player else player.

(** The body of [if state == "playing":]. *)
Definition update_playing (keys : Keys) (w : World) : World :=
  let player := Player.update keys (platforms w) (player w) in
  let enemies := map (Enemy.update (platforms w)) (enemies w) in
  let coins := map Coin.update (coins w) in
  (* Coin collection *)
  let '(collected, coins) := spritecollide_kill (Player.rect player) coins in
  let player := Player.set_score (Player.score player + len collected * 10) player in
  (* Win condition: all coins collected *)
  let state := if len coins =? 0 then win else state w in
  let player := enemy_contact enemies player in
  let player := fall_off_screen player in
  let state := if Player.is_dead player then game_over else state in
  mkWorld state player (platforms w) coins enemies (total_coins w).

(** One iteration of [while True:] (drawing omitted). *)
Definition frame (f : Frame) (w : World) : option World :=
  match handle_events (rnd f) (events f) w with
  | None => None
  | Some w =>
      Some (match state w with
            | playing => update_playing (keys f) w
            | _ => w
            end)
  end.

(** The coin counter drawn on the HUD, ["Coins: {a}/{b}"], as [(a, b)]. *)
Definition coin_info (w : World) : Z * Z :=
  (total_coins w - len (coins w), total_coins w).

(** Worlds the loop can be in at the top of an iteration. *)
Inductive reachable : World -> Prop :=
| reachable_init : forall rnd0, reachable (main_init rnd0)
| reachable_frame : forall f w w',
    reachable w -> frame f w = Some w' -> reachable w'.

(** The loop run over a finite sequence of frames; [None] when the process
    exited on the way. *)
Fixpoint run (frames : list Frame) (w : World) : option World :=
  match frames with
  | [] => Some w
  | f :: rest =>
      match frame f w with
      | None => None
      | Some w' => run rest w'
      end
  end.

Definition main (rnd0 : nat -> Z) (frames : list Frame) : option World :=
  run frames (main_init rnd0).

(** Does this iteration rebuild the level?  (A RETURN key-down that is
    processed while the state is not ["playing"].) *)
Fixpoint rebuilds (evs : list Event) (s : State) : bool :=
  match evs with
  | [] => false
  | QUIT :: _ => false
  | KEYDOWN K_ESCAPE :: _ => false
  | KEYDOWN K_RETURN :: rest => restartable s || rebuilds rest s
  | _ :: rest => rebuilds rest s
  end.

(** A run of consecutive [Player.update] calls, one per tick, each with the
    keys held and the platform group passed on that tick. *)
Definition updates (inputs : list (Keys * list Platform.t)) (p : Player.t)
  : Player.t :=
  fold_left (fun p '(keys, platforms) => Player.update keys platforms p) inputs p.

(** Keyboard states used in examples. *)
Definition no_keys : Keys := fun _ => false.
Definition left_and_right : Keys :=
  fun k => match k with K_LEFT | K_RIGHT => true | _ => false end.

(** Ten ticks of standing still on the built level. *)
Definition ten_idle_ticks : list (Keys * list Platform.t) :=
  let '(_, platforms, _, _) := build_level (fun _ => 0) in
  repeat (no_keys, platforms) 10.

(** [n] consecutive ticks of one coin. *)
Definition coin_ticks (n : nat) (c : Coin.t) : Coin.t := Nat.iter n Coin.update c.

(** What one tick adds to a coin's [centery] when the incremented timer is
    [timer]: the [offset // 6] of [Coin.update]. *)
Definition bob_step (timer : Z) : Z := bob_offset timer / 6.

(** Sum of the steps of the [n] ticks that follow timer value [timer]. *)
Fixpoint drift (n : nat) (timer : Z) : Z :=
  match n with
  | O => 0
  | S k => drift k timer + bob_step (timer + Z.of_nat n)
  end.

(** A run of consecutive [Enemy.update] calls, one per tick, each with the
    platform group passed on that tick. *)
Definition enemy_ticks (ticks : list (list Platform.t)) (e : Enemy.t) : Enemy.t :=
  fold_left (fun e platforms => Enemy.update platforms e) ticks e.

(** The enemy's rectangle lies strictly between its patrol bounds, it walks
    at speed 2 and the patrol range leaves room to turn around. *)
Definition patrolling (e : Enemy.t) : Prop :=
  (Enemy.vel_x e = 2 \/ Enemy.vel_x e = -2) /\
  Rect.w (Enemy.rect e) = Enemy.width /\
  Enemy.patrol_min e < Rect.left (Enemy.rect e) /\
  Rect.right (Enemy.rect e) < Enemy.patrol_max e /\
  Enemy.width + 4 < Enemy.patrol_max e - Enemy.patrol_min e.

(** The health invariant of the data model. *)
Definition health_ok (p : Player.t) : Prop :=
  Player.max_health p = 100 /\ 0 <= Player.health p <= Player.max_health p.

(** What every iteration of the main loop maintains. *)
Definition loop_invariant (w : World) : Prop :=
  health_ok (player w) /\
  total_coins w = 13 /\
  len (coins w) <= total_coins w /\
  Player.score (player w) = 10 * (total_coins w - len (coins w)).

(** A world late in a run of the built level: twelve coins are collected,
    the last one (spawned at (400, 535)) has drifted up to the level of the
    second floating platform, where the player stands, one hit from death
    and one tick from the end of an invincibility window, next to the
    enemy patrolling that platform. *)
Definition last_coin_world : World :=
  {| state := playing;
     player :=
       {| Player.rect := Rect.mk 360 332 32 48;
          Player.vel_x := 0; Player.vel_y := 0; Player.on_ground := true;
          Player.max_health := 100; Player.health := 20; Player.score := 120;
          Player.invincible_timer := 1; Player.facing_right := true;
          Player.walk_frame := 0 |};
     platforms := platforms (main_init (fun _ => 0));
     coins := [ Coin.mk (Rect.mk 390 380 20 20) 385 ];
     enemies :=
       [ Enemy.mk (Rect.mk 200 518 36 42) 2 50 260;
         Enemy.mk (Rect.mk 450 518 36 42) 2 300 700;
         Enemy.mk (Rect.mk 329 338 36 42) (-2) 280 400;
         Enemy.mk (Rect.mk 605 308 36 42) 2 570 700;
         Enemy.mk (Rect.mk 229 238 36 42) 2 200 300 ];
     total_coins := 13 |}.

(** A frame in which nothing is pressed and no event is queued. *)
Definition idle_frame : Frame :=
  {| keys := no_keys; events := []; rnd := fun _ => 0 |}.

(** A frame whose only event is the RETURN key going down. *)
Definition confirm_frame : Frame :=
  {| keys := no_keys; events := [KEYDOWN K_RETURN]; rnd := fun _ => 0 |}.

(** The world after the first playing tick of a run started from the title
    screen with RETURN. *)
Definition first_playing_world : World :=
  update_playing no_keys (restart (fun _ => 0)).

(** [last_coin_world] with 40 health points left instead of 20. *)
Definition winning_world : World :=
  {| state := state last_coin_world;
     player := Player.set_health 40 (player last_coin_world);
     platforms := platforms last_coin_world;
     coins := coins last_coin_world;
     enemies := enemies last_coin_world;
     total_coins := total_coins last_coin_world |}.

(** The first platform, in iteration order, that a rectangle collides with. *)
Definition first_hit (r : Rect.t) (platforms : list Platform.t)
  : option Platform.t :=
  find (fun plat => Rect.colliderect r (Platform.rect plat)) platforms.

(** The player's rectangle right after [self.rect.x += int(self.vel_x)]. *)
Definition moved_x (p : Player.t) : Rect.t :=
  Rect.set_x (Rect.x (Player.rect p) + int_of_float (Player.vel_x p))
             (Player.rect p).

(** The player's rectangle right after [self.rect.y += int(self.vel_y)]. *)
Definition moved_y (p : Player.t) : Rect.t :=
  Rect.set_y (Rect.y (Player.rect p) + int_of_float (Player.vel_y p))
             (Player.rect p).

(** [v > 0 or v < 0], the two tests of the collision loops. *)
Definition nonzero (v : Q) : bool := Qltb 0 v || Qltb v 0.

(** A player falling (without horizontal motion) onto two adjacent
    platforms whose tops differ by one pixel. *)
Definition falling_player : Player.t :=
  {| Player.rect := Rect.mk 0 0 32 48;
     Player.vel_x := 0; Player.vel_y := 10.5; Player.on_ground := false;
     Player.max_health := 100; Player.health := 100; Player.score := 0;
     Player.invincible_timer := 0; Player.facing_right := true;
     Player.walk_frame := 0 |}.
Definition low_step : Platform.t := Platform.init 0 50 16 20 PLAT.
Definition high_step : Platform.t := Platform.init 16 49 16 20 PLAT.

(** A player walking right into a wall. *)
Definition walking_player : Player.t :=
  {| Player.rect := Rect.mk 0 0 32 48;
     Player.vel_x := 4; Player.vel_y := 0.5; Player.on_ground := false;
     Player.max_health := 100; Player.health := 100; Player.score := 0;
     Player.invincible_timer := 0; Player.facing_right := true;
     Player.walk_frame := 0 |}.
Definition wall : Platform.t := Platform.init 34 0 20 48 PLAT.

(** The fields of the player that only [take_damage] and the main loop
    write: physics and input never touch them. *)
Definition vitals (p : Player.t) : Z * Z * Z :=
  (Player.max_health p, Player.health p, Player.score p).

(** The velocities the controls and gravity can produce. *)
Definition speed_ok (p : Player.t) : Prop :=
  (- inject_Z PLAYER_SPEED <= Player.vel_x p <= inject_Z PLAYER_SPEED)%Q /\
  (inject_Z JUMP_FORCE <= Player.vel_y p <= 20)%Q.

(** No direction key is held on any tick of the run. *)
Definition no_direction (inputs : list (Keys * list Platform.t)) : Prop :=
  Forall (fun i => Player.left_held (fst i) = false /\
                   Player.right_held (fst i) = false) inputs.

(** The events on which [main] leaves the process. *)
Definition is_quit (ev : Event) : bool :=
  match ev with
  | QUIT | KEYDOWN K_ESCAPE => true
  | _ => false
  end.

(** The event that starts or restarts a run. *)
Definition is_confirm (ev : Event) : bool :=
  match ev with
  | KEYDOWN K_RETURN => true
  | _ => false
  end.

(** A keyboard state with the given left, right and jump keys. *)
Definition keys_of (l r j : bool) : Keys :=
  fun k =>
    match k with
    | K_LEFT => l
    | K_RIGHT => r
    | K_SPACE => j
    | _ => false
    end.

(** The patrol bounds of the level's enemies, in group order. *)
Definition level_patrols : list (Z * Z) :=
  map (fun '(_, _, pmin, pmax) => (pmin, pmax)) enemy_data.

(** The platform group of the level (it does not depend on the random
    draws), its ground strip and the ledge at the left screen edge. *)
Definition level_platforms : list Platform.t :=
  platforms (main_init (fun _ => 0)).
Definition ground_strip : Platform.t := Platform.init 0 560 800 40 GROUND.
Definition left_ledge : Platform.t := Platform.init 0 300 80 18 PLAT.

(** Where the player of the built level can be at the top of an iteration:
    on screen, not below the ground strip, not faster than the controls
    allow, and not inside the ledge that touches the left screen edge. *)
Definition on_level (p : Player.t) : Prop :=
  Rect.w (Player.rect p) = Player.width /\
  Rect.h (Player.rect p) = Player.height /\
  0 <= Rect.left (Player.rect p) /\
  Rect.right (Player.rect p) <= SCREEN_W /\
  Rect.bottom (Player.rect p) <= Rect.top (Platform.rect ground_strip) /\
  (- inject_Z PLAYER_SPEED <= Player.vel_x p <= inject_Z PLAYER_SPEED)%Q /\
  Rect.colliderect (Player.rect p) (Platform.rect left_ledge) = false.

(** Patrol bounds and height of the level's enemies as built. *)
Definition level_posts : list (Z * Z * Z) :=
  map (fun '(_, ey, pmin, pmax) => (pmin, pmax, ey)) enemy_data.

(** An enemy of the level at its post: patrolling between the bounds it
    was built with, at the height it was built at. *)
Definition at_post (e : Enemy.t) : Prop :=
  patrolling e /\
  Rect.h (Enemy.rect e) = Enemy.height /\
  In (Enemy.patrol_min e, Enemy.patrol_max e, Rect.y (Enemy.rect e))
     level_posts.

(** The rectangle [r] stands on the platform: its bottom is the
    platform's top and it does not reach over either end. *)
Definition stands_on (r : Rect.t) (plat : Platform.t) : Prop :=
  Rect.bottom r = Rect.top (Platform.rect plat) /\
  Rect.left (Platform.rect plat) <= Rect.left r /\
  Rect.right r <= Rect.right (Platform.rect plat).

(** A run that collects a coin: RETURN on the title screen with the right
    key held, which stays held for 24 more frames. *)
Definition right_frame : Frame :=
  {| keys := keys_of false true false; events := []; rnd := fun _ => 0 |}.
Definition start_right_frame : Frame :=
  {| keys := keys_of false true false; events := [KEYDOWN K_RETURN];
     rnd := fun _ => 0 |}.
Definition first_coin_run : list Frame :=
  start_right_frame :: repeat right_frame 24.

(** The world that run ends in: 25 playing ticks after the rebuild. *)
Definition after_first_coin : World :=
  Nat.iter 25 (update_playing (keys_of false true false))
           (restart (fun _ => 0)).

(** * Properties *)

(** ** Generic facts *)

Lemma fold_left_invariant {A B : Type} (P : A -> Prop) (f : A -> B -> A) :
  (forall a b, P a -> P (f a b)) ->
  forall l a, P a -> P (fold_left f l a).
Proof.
  intros Hstep l; induction l as [|b l IH]; simpl; auto.
Qed.

Lemma len_partition {A : Type} (f : A -> bool) (l yes no : list A) :
  partition f l = (yes, no) -> len l = len yes + len no.
Proof.
  unfold len. revert yes no.
  induction l as [|a l IH]; simpl; intros yes no H.
  - inversion H; reflexivity.
  - destruct (partition f l) as [y n] eqn:E.
    specialize (IH y n eq_refl).
    destruct (f a); inversion H; subst; simpl length; lia.
Qed.

(** ** Player input (C1) *)

(** C1, as stated, fails: with LEFT and RIGHT both held on a freshly built
    player, [handle_input] sets the horizontal velocity to -4, not +4. *)
Lemma right_priority_counterexample :
  Player.left_held left_and_right = true /\
  Player.right_held left_and_right = true /\
  Player.vel_x (Player.handle_input left_and_right (Player.init 60 490))
    = inject_Z (-4) /\
  ~ (Player.vel_x (Player.handle_input left_and_right (Player.init 60 490))
       == inject_Z PLAYER_SPEED)%Q.
Proof.
  repeat split; try reflexivity.
  intro H. vm_compute in H. discriminate H.
Qed.

(** C1 (amended): when left and right are both held in the same tick, left
    takes priority: for every such key state and every player state the
    horizontal velocity becomes -PLAYER_SPEED and the player faces left. *)
Theorem left_priority_when_both_held :
  forall (keys : Keys) (p : Player.t),
    Player.left_held keys = true ->
    Player.right_held keys = true ->
    Player.vel_x (Player.handle_input keys p) = inject_Z (- PLAYER_SPEED) /\
    Player.facing_right (Player.handle_input keys p) = false.
Proof.
  intros keys p Hl _.
  unfold Player.handle_input, Player.handle_horizontal. rewrite Hl.
  cbn beta iota.
  repeat match goal with
         | |- context [if ?c then _ else _] => destruct c
         end; split; reflexivity.
Qed.

Lemma left_priority_when_both_held_witness :
  Player.vel_x (Player.handle_input left_and_right (Player.init 60 490))
    = inject_Z (- PLAYER_SPEED) /\
  Player.facing_right (Player.handle_input left_and_right (Player.init 60 490))
    = false.
Proof.
  apply (left_priority_when_both_held left_and_right (Player.init 60 490));
    reflexivity.
Defined.

(** ** What [Player.update] leaves alone *)

Ltac split_ifs :=
  repeat match goal with
         | |- context [if ?c then _ else _] => destruct c
         end.

Lemma handle_input_vitals keys p :
  vitals (Player.handle_input keys p) = vitals p /\
  Player.invincible_timer (Player.handle_input keys p)
    = Player.invincible_timer p /\
  Player.rect (Player.handle_input keys p) = Player.rect p.
Proof.
  unfold Player.handle_input, Player.handle_horizontal.
  cbn beta iota. split_ifs; repeat split.
Qed.

Lemma apply_gravity_vitals p :
  vitals (Player.apply_gravity p) = vitals p /\
  Player.invincible_timer (Player.apply_gravity p)
    = Player.invincible_timer p /\
  Player.rect (Player.apply_gravity p) = Player.rect p.
Proof.
  unfold Player.apply_gravity. cbn beta iota zeta. split_ifs; repeat split.
Qed.

Lemma collide_horizontal_vitals p plat :
  vitals (Player.collide_horizontal p plat) = vitals p /\
  Player.invincible_timer (Player.collide_horizontal p plat)
    = Player.invincible_timer p.
Proof.
  unfold Player.collide_horizontal. split_ifs; repeat split.
Qed.

Lemma collide_vertical_vitals p plat :
  vitals (Player.collide_vertical p plat) = vitals p /\
  Player.invincible_timer (Player.collide_vertical p plat)
    = Player.invincible_timer p.
Proof.
  unfold Player.collide_vertical. split_ifs; repeat split.
Qed.

Lemma move_and_collide_vitals platforms p :
  vitals (Player.move_and_collide platforms p) = vitals p /\
  Player.invincible_timer (Player.move_and_collide platforms p)
    = Player.invincible_timer p.
Proof.
  unfold Player.move_and_collide, Player.move_vertical, Player.move_horizontal.
  apply (fold_left_invariant
           (fun q => vitals q = vitals p /\
                     Player.invincible_timer q = Player.invincible_timer p)).
  { intros q plat [Hv Ht].
    destruct (collide_vertical_vitals q plat) as [Hv' Ht']. split; congruence. }
  cbn beta zeta.
  match goal with
  | |- vitals (Player.set_rect _ (Player.set_on_ground _ ?q)) = _ /\ _ =>
      change (vitals q = vitals p /\
              Player.invincible_timer q = Player.invincible_timer p)
  end.
  apply (fold_left_invariant
           (fun q => vitals q = vitals p /\
                     Player.invincible_timer q = Player.invincible_timer p)).
  { intros q plat [Hv Ht].
    destruct (collide_horizontal_vitals q plat) as [Hv' Ht']. split; congruence. }
  split; reflexivity.
Qed.

Lemma update_vitals keys platforms p :
  vitals (Player.update keys platforms p) = vitals p.
Proof.
  destruct (handle_input_vitals keys p) as (H1 & _ & _).
  destruct (apply_gravity_vitals (Player.handle_input keys p)) as (H2 & _ & _).
  destruct (move_and_collide_vitals platforms
              (Player.apply_gravity (Player.handle_input keys p))) as (H3 & _).
  unfold Player.update. cbn beta zeta.
  rewrite <- H1, <- H2, <- H3.
  split_ifs; reflexivity.
Qed.

Lemma update_health keys platforms p :
  Player.health (Player.update keys platforms p) = Player.health p.
Proof.
  pose proof (update_vitals keys platforms p) as H.
  injection H as _ H _. exact H.
Qed.

Lemma update_invincible_timer keys platforms p :
  Player.invincible_timer (Player.update keys platforms p)
  = if 0 <? Player.invincible_timer p
    then Player.invincible_timer p - 1 else Player.invincible_timer p.
Proof.
  destruct (handle_input_vitals keys p) as (_ & H1 & _).
  destruct (apply_gravity_vitals (Player.handle_input keys p)) as (_ & H2 & _).
  destruct (move_and_collide_vitals platforms
              (Player.apply_gravity (Player.handle_input keys p))) as (_ & H3).
  unfold Player.update. cbn beta zeta.
  rewrite <- H1, <- H2, <- H3.
  split_ifs; reflexivity.
Qed.

Lemma updates_health inputs : forall p,
  Player.health (updates inputs p) = Player.health p.
Proof.
  unfold updates.
  induction inputs as [|[k pl] inputs IH]; intros p; simpl; auto.
  rewrite IH. apply update_health.
Qed.

Lemma updates_invincible_timer inputs : forall p,
  len inputs <= Player.invincible_timer p ->
  Player.invincible_timer (updates inputs p)
  = Player.invincible_timer p - len inputs.
Proof.
  unfold updates, len.
  induction inputs as [|[k pl] inputs IH]; intros p Hn; simpl fold_left.
  - simpl. lia.
  - simpl length in *. rewrite IH; rewrite update_invincible_timer;
      destruct (Z.ltb_spec 0 (Player.invincible_timer p)); lia.
Qed.

(** ** Damage and the invincibility window (C4) *)

Lemma take_damage_invincible amount p :
  0 < Player.invincible_timer p -> Player.take_damage amount p = p.
Proof.
  intros H. unfold Player.take_damage.
  destruct (Z.ltb_spec 0 (Player.invincible_timer p)); [reflexivity | lia].
Qed.

Lemma take_damage_vulnerable amount p :
  Player.invincible_timer p <= 0 ->
  Player.health (Player.take_damage amount p)
    = Z.max 0 (Player.health p - amount) /\
  Player.invincible_timer (Player.take_damage amount p) = 90.
Proof.
  intros H. unfold Player.take_damage.
  destruct (Z.ltb_spec 0 (Player.invincible_timer p)); [lia |].
  cbn. destruct (Z.ltb_spec (Player.health p - amount) 0); cbn; split; lia.
Qed.

(** C4: inside the invincibility window [take_damage] changes nothing;
    after a hit that lands, any further hit fewer than 90 ticks later
    leaves the health alone; and the 100 -> 80 scenario of the
    specification, with a second contact 10 ticks after the first. *)
Theorem take_damage_idempotent_in_window :
  (forall amount p,
      0 < Player.invincible_timer p -> Player.take_damage amount p = p) /\
  (forall a b p inputs,
      (length inputs < 90)%nat ->
      Player.invincible_timer p <= 0 ->
      Player.health
        (Player.take_damage b (updates inputs (Player.take_damage a p)))
      = Player.health (Player.take_damage a p)) /\
  (forall p inputs,
      Player.health p = 100 ->
      Player.invincible_timer p = 0 ->
      length inputs = 10%nat ->
      Player.health (Player.take_damage 20 p) = 80 /\
      Player.invincible_timer (Player.take_damage 20 p) = 90 /\
      Player.invincible_timer (updates inputs (Player.take_damage 20 p)) = 80 /\
      Player.health
        (Player.take_damage 20 (updates inputs (Player.take_damage 20 p)))
      = 80).
Proof.
  assert (Hwin : forall a b p inputs,
             (length inputs < 90)%nat ->
             Player.invincible_timer p <= 0 ->
             Player.invincible_timer (updates inputs (Player.take_damage a p))
               = 90 - len inputs /\
             Player.health
               (Player.take_damage b (updates inputs (Player.take_damage a p)))
             = Player.health (Player.take_damage a p)).
  { intros a b p inputs Hn Hp.
    destruct (take_damage_vulnerable a p Hp) as [_ Ht].
    assert (Hu : Player.invincible_timer
                   (updates inputs (Player.take_damage a p))
                 = 90 - len inputs).
    { rewrite updates_invincible_timer; rewrite Ht; unfold len; lia. }
    split; [exact Hu |].
    rewrite take_damage_invincible.
    - apply updates_health.
    - rewrite Hu. unfold len. lia. }
  split; [| split].
  - intros amount p H. apply take_damage_invincible; assumption.
  - intros a b p inputs Hn Hp. apply Hwin; assumption.
  - intros p inputs Hh Ht Hn.
    destruct (take_damage_vulnerable 20 p ltac:(lia)) as [H1 H2].
    destruct (Hwin 20 20 p inputs ltac:(lia) ltac:(lia)) as [H3 H4].
    rewrite Hh in H1. change (Z.max 0 (100 - 20)) with 80 in H1.
    unfold len in H3. rewrite Hn in H3.
    repeat split; try assumption; try congruence.
Qed.

Lemma take_damage_idempotent_in_window_witness :
  Player.take_damage 20 (Player.set_invincible_timer 5 (Player.init 60 490))
    = Player.set_invincible_timer 5 (Player.init 60 490) /\
  Player.health
    (Player.take_damage 20
       (updates ten_idle_ticks (Player.take_damage 20 (Player.init 60 490))))
    = Player.health (Player.take_damage 20 (Player.init 60 490)) /\
  Player.health (Player.take_damage 20 (Player.init 60 490)) = 80 /\
  Player.invincible_timer (Player.take_damage 20 (Player.init 60 490)) = 90 /\
  Player.health
    (Player.take_damage 20
       (updates ten_idle_ticks (Player.take_damage 20 (Player.init 60 490))))
    = 80.
Proof.
  destruct take_damage_idempotent_in_window as (H1 & H2 & H3).
  split; [| split].
  - apply (H1 20 (Player.set_invincible_timer 5 (Player.init 60 490))).
    simpl. lia.
  - apply (H2 20 20 (Player.init 60 490) ten_idle_ticks).
    + vm_compute. lia.
    + simpl. lia.
  - destruct (H3 (Player.init 60 490) ten_idle_ticks) as (A & B & _ & D);
      try reflexivity.
    repeat split; assumption.
Defined.

(** ** Enemy construction (C6) *)




(** Only the position can make the call fail. *)
Example enemy_construct_position_out_of_range :
  Enemy.construct (2 ^ 31) 0 50 260 = Enemy.ConstructionError /\
  Enemy.construct 0 (- 2 ^ 31 - 1) 50 260 = Enemy.ConstructionError.
Proof. split; reflexivity. Qed.

(** ** Coin bobbing (C7) *)

Lemma coin_update_spec c :
  Coin.update c =
  Coin.mk (Rect.set_y (Rect.y (Coin.rect c) + bob_step (Coin._bob_timer c + 1))
                      (Coin.rect c))
          (Coin._bob_timer c + 1).
Proof.
  unfold Coin.update, bob_step, Rect.set_centery, Rect.centery, Rect.set_y.
  cbn. f_equal. f_equal. lia.
Qed.

Lemma coin_ticks_spec n : forall c,
  coin_ticks n c =
  Coin.mk (Rect.set_y (Rect.y (Coin.rect c) + drift n (Coin._bob_timer c))
                      (Coin.rect c))
          (Coin._bob_timer c + Z.of_nat n).
Proof.
  unfold coin_ticks.
  induction n as [|n IH]; intros [[x y w h] t].
  - cbn. rewrite !Z.add_0_r. reflexivity.
  - rewrite Nat.iter_succ, IH, coin_update_spec.
    cbn [Coin.rect Coin._bob_timer Rect.set_y Rect.x Rect.y Rect.w Rect.h drift].
    replace (t + Z.of_nat n + 1) with (t + Z.of_nat (S n)) by lia.
    rewrite Z.add_assoc. reflexivity.
Qed.

Lemma bob_step_mod t i : bob_step (t + i) = bob_step (t mod 60 + i).
Proof.
  unfold bob_step, bob_offset.
  rewrite <- (Z.add_mod_idemp_l t i 60) by lia. reflexivity.
Qed.

Lemma drift_mod n t : drift n t = drift n (t mod 60).
Proof.
  induction n as [|n IH]; [reflexivity |].
  cbn [drift]. rewrite IH, bob_step_mod. reflexivity.
Qed.

Lemma drift_period_nat (r : nat) : (r < 60)%nat -> drift 60 (Z.of_nat r) = -23.
Proof.
  intros H.
  do 60 (destruct r as [|r]; [vm_compute; reflexivity |]).
  lia.
Qed.

(** Whatever the timer, 23 of any 60 consecutive ticks move the coin up by
    one pixel and none moves it down. *)
Lemma drift_period t : drift 60 t = -23.
Proof.
  rewrite drift_mod.
  pose proof (Z.mod_pos_bound t 60 ltac:(lia)) as Hr.
  rewrite <- (Z2Nat.id (t mod 60)) by lia.
  apply drift_period_nat. lia.
Qed.

Lemma coin_ticks_add m n c : coin_ticks (m + n) c = coin_ticks m (coin_ticks n c).
Proof. unfold coin_ticks. apply Nat.iter_add. Qed.

(** C7 (the code departs from the claim): every tick increments the bob
    timer by one, but the vertical centre is not kept near the spawn
    position: each full period of 60 ticks moves it up by 23 pixels,
    whatever the coin and its timer, so after [60 * n] ticks it is
    [23 * n] pixels above where it started. *)
Theorem coin_drifts_upward :
  forall (c : Coin.t) (n : nat),
    Coin._bob_timer (Coin.update c) = Coin._bob_timer c + 1 /\
    Coin._bob_timer (coin_ticks (60 * n) c)
      = Coin._bob_timer c + 60 * Z.of_nat n /\
    Rect.centery (Coin.rect (coin_ticks (60 * n) c))
      = Rect.centery (Coin.rect c) - 23 * Z.of_nat n.
Proof.
  intros c n. split; [reflexivity |].
  induction n as [|n IH].
  - rewrite Nat.mul_0_r. unfold coin_ticks. simpl Nat.iter. split; lia.
  - replace (60 * S n)%nat with (60 + 60 * n)%nat by lia.
    rewrite coin_ticks_add.
    destruct IH as [IHt IHy].
    rewrite (coin_ticks_spec 60), drift_period.
    unfold Rect.centery in *.
    cbn [Coin.rect Coin._bob_timer Rect.set_y Rect.x Rect.y Rect.w Rect.h].
    split; lia.
Qed.

(** The first coin of the level, with bob timer 0: one second (60 ticks)
    after it was created its centre has left [435 - 3, 435 + 3]; after ten
    seconds it is 230 pixels above its spawn position. *)
Example coin_drift_first_coin :
  Rect.centery (Coin.rect (Coin.init 170 435 0)) = 435 /\
  Rect.centery (Coin.rect (coin_ticks 60 (Coin.init 170 435 0))) = 412 /\
  Rect.centery (Coin.rect (coin_ticks 600 (Coin.init 170 435 0))) = 205.
Proof. vm_compute. repeat split. Qed.

(** No tick ever moves a coin down. *)
Lemma bob_step_nonpositive t : bob_step t = 0 \/ bob_step t = -1.
Proof.
  unfold bob_step, bob_offset.
  pose proof (Z.mod_pos_bound t 60 ltac:(lia)) as Hr.
  remember (Z.to_nat (t mod 60)) as r eqn:Er.
  assert (Hlt : (r < 60)%nat) by lia. clear Er Hr.
  do 60 (destruct r as [|r]; [vm_compute; auto |]).
  lia.
Qed.

(** ** Enemy patrol (C8) *)

Lemma enemy_update_bounds platforms e :
  Enemy.patrol_min (Enemy.update platforms e) = Enemy.patrol_min e /\
  Enemy.patrol_max (Enemy.update platforms e) = Enemy.patrol_max e.
Proof.
  unfold Enemy.update. cbn beta zeta.
  destruct (spritecollideany _ _); split_ifs; split; reflexivity.
Qed.

(** One tick keeps a patrolling enemy patrolling: a step that would touch
    a bound is turned into a step of the same length the other way. *)
Lemma enemy_update_patrolling platforms e :
  patrolling e -> patrolling (Enemy.update platforms e).
Proof.
  destruct e as [[x y w h] v mn mx].
  unfold patrolling, Enemy.update, Enemy.width, Rect.left, Rect.right.
  cbn. intros (Hv & Hw & Hl & Hr & Hroom). subst w.
  destruct (Z.leb_spec (x + v) mn); destruct (Z.leb_spec mx (x + v + 36));
    cbn; destruct (spritecollideany _ _); cbn; lia.
Qed.

Lemma enemy_ticks_patrolling ticks : forall e,
  patrolling e ->
  patrolling (enemy_ticks ticks e) /\
  Enemy.patrol_min (enemy_ticks ticks e) = Enemy.patrol_min e /\
  Enemy.patrol_max (enemy_ticks ticks e) = Enemy.patrol_max e.
Proof.
  unfold enemy_ticks.
  induction ticks as [|pl ticks IH]; intros e He; simpl fold_left.
  - auto.
  - destruct (IH (Enemy.update pl e) (enemy_update_patrolling pl e He))
      as (H1 & H2 & H3).
    destruct (enemy_update_bounds pl e) as [H4 H5].
    repeat split; try apply H1; congruence.
Qed.

Lemma patrolling_center e :
  patrolling e ->
  Enemy.patrol_min e <= Rect.centerx (Enemy.rect e) <= Enemy.patrol_max e.
Proof.
  destruct e as [[x y w h] v mn mx].
  unfold patrolling, Rect.centerx, Rect.left, Rect.right. cbn.
  intros (_ & Hw & Hl & Hr & _). subst w.
  change (Enemy.width ÷ 2) with 18. unfold Enemy.width in Hr. lia.
Qed.

Lemma level_enemies_patrolling rnd0 e :
  In e (enemies (main_init rnd0)) -> patrolling e.
Proof.
  cbn. intros H.
  repeat (destruct H as [H | H];
          [subst e; unfold patrolling; cbn; unfold Enemy.width; lia |]).
  contradiction.
Qed.

(** ** The main loop *)

Lemma len_map {A B : Type} (f : A -> B) (l : list A) : len (map f l) = len l.
Proof. unfold len. rewrite length_map. reflexivity. Qed.

Lemma len_nonneg {A : Type} (l : list A) : 0 <= len l.
Proof. unfold len. lia. Qed.

Lemma take_damage_vitals amount p :
  Player.max_health (Player.take_damage amount p) = Player.max_health p /\
  Player.score (Player.take_damage amount p) = Player.score p /\
  Player.rect (Player.take_damage amount p) = Player.rect p.
Proof.
  unfold Player.take_damage. cbn beta zeta. split_ifs; repeat split.
Qed.

(** A non-negative amount of damage lowers the health, but not below 0. *)
Lemma take_damage_health amount p :
  0 <= amount -> 0 <= Player.health p ->
  0 <= Player.health (Player.take_damage amount p) <= Player.health p.
Proof.
  intros Ha Hh.
  destruct (Z.ltb_spec 0 (Player.invincible_timer p)) as [Hi | Hi].
  - rewrite take_damage_invincible by assumption. lia.
  - destruct (take_damage_vulnerable amount p Hi) as [-> _]. lia.
Qed.

Lemma enemy_contact_spec enemies p :
  Player.max_health (enemy_contact enemies p) = Player.max_health p /\
  Player.score (enemy_contact enemies p) = Player.score p /\
  (0 <= Player.health p ->
   0 <= Player.health (enemy_contact enemies p) <= Player.health p).
Proof.
  unfold enemy_contact. destruct (spritecollideany _ _).
  - destruct (take_damage_vitals 20 p) as (Hm & Hs & _).
    repeat split; try assumption;
      pose proof (take_damage_health 20 p ltac:(lia)); lia.
  - repeat split; lia.
Qed.

Lemma fall_off_screen_spec p :
  Player.max_health (fall_off_screen p) = Player.max_health p /\
  Player.score (fall_off_screen p) = Player.score p /\
  (0 <= Player.health p ->
   0 <= Player.health (fall_off_screen p) <= Player.health p).
Proof.
  unfold fall_off_screen. destruct (SCREEN_H + 50 <? _); cbn; repeat split; lia.
Qed.

(** The event loop either leaves the world alone or replaces it by a
    freshly built level in state ["playing"]. *)
Lemma handle_events_cases rnd evs : forall w w',
  handle_events rnd evs w = Some w' ->
  (rebuilds evs (state w) = false /\ w' = w) \/
  (rebuilds evs (state w) = true /\ w' = restart rnd).
Proof.
  induction evs as [|ev evs IH]; intros w w' H; simpl in H.
  - left. split; [reflexivity | congruence].
  - destruct ev as [|k|]; try discriminate; simpl rebuilds.
    + destruct k; try discriminate; try (apply IH; assumption).
      destruct (restartable (state w)) eqn:Hs; simpl.
      * right. split; [reflexivity |].
        destruct (IH _ _ H) as [[_ ->] | [_ ->]]; reflexivity.
      * apply IH; assumption.
    + apply IH; assumption.
Qed.

(** What one playing tick does to health, score and coins. *)
Lemma update_playing_spec keys w :
  let w' := update_playing keys w in
  Player.max_health (player w') = Player.max_health (player w) /\
  (0 <= Player.health (player w) ->
   0 <= Player.health (player w') <= Player.health (player w)) /\
  len (coins w') <= len (coins w) /\
  Player.score (player w')
    = Player.score (player w) + 10 * (len (coins w) - len (coins w')) /\
  total_coins w' = total_coins w /\
  state w' = (if Player.is_dead (player w') then game_over
              else if len (coins w') =? 0 then win else state w).
Proof.
  unfold update_playing, spritecollide_kill.
  destruct (partition _ (map Coin.update (coins w))) as [collected rest] eqn:E.
  apply len_partition in E. rewrite len_map in E.
  pose proof (len_nonneg collected) as Hc.
  pose proof (update_vitals keys (platforms w) (player w)) as Hv.
  unfold vitals in Hv. injection Hv as Hmax Hhealth Hscore.
  set (p1 := Player.set_score _ _).
  assert (H1 : Player.max_health p1 = Player.max_health (player w)
               /\ Player.health p1 = Player.health (player w)
               /\ Player.score p1
                  = Player.score (player w) + len collected * 10).
  { subst p1. cbn. repeat split; congruence. }
  destruct H1 as (H1m & H1h & H1s).
  set (p2 := enemy_contact _ p1).
  destruct (enemy_contact_spec (map (Enemy.update (platforms w)) (enemies w)) p1)
    as (H2m & H2s & H2h). fold p2 in H2m, H2s, H2h.
  set (p3 := fall_off_screen p2).
  destruct (fall_off_screen_spec p2) as (H3m & H3s & H3h).
  fold p3 in H3m, H3s, H3h.
  assert (H3h' : 0 <= Player.health (player w) ->
                 0 <= Player.health p3 <= Player.health (player w)).
  { intros H0. rewrite <- H1h in H0 |- *.
    specialize (H2h H0). specialize (H3h ltac:(lia)). lia. }
  cbn [player coins total_coins state].
  split; [congruence |]. split; [exact H3h' |].
  split; [lia |]. split; [lia |]. split; reflexivity.
Qed.

Lemma build_level_invariant rnd s :
  let '(player, platforms, coins, enemies) := build_level rnd in
  loop_invariant (mkWorld s player platforms coins enemies (len coins)).
Proof.
  unfold loop_invariant, health_ok. cbn. lia.
Qed.

Lemma frame_invariant f w w' :
  loop_invariant w -> frame f w = Some w' -> loop_invariant w'.
Proof.
  intros Hw H. unfold frame in H.
  destruct (handle_events (rnd f) (events f) w) as [w1|] eqn:E;
    [| discriminate].
  assert (H1 : loop_invariant w1).
  { destruct (handle_events_cases _ _ _ _ E) as [[_ ->] | [_ ->]];
      [assumption | apply (build_level_invariant (rnd f) playing)]. }
  assert (Hup : loop_invariant (update_playing (keys f) w1)).
  { destruct H1 as ((Hm & Hh) & Ht & Hl & Hs).
    destruct (update_playing_spec (keys f) w1) as (Um & Uh & Ul & Us & Ut & _).
    unfold loop_invariant, health_ok. rewrite Um, Us, Ut.
    specialize (Uh ltac:(lia)). repeat split; lia. }
  destruct (state w1); inversion H; subst; assumption.
Qed.

Lemma reachable_invariant w : reachable w -> loop_invariant w.
Proof.
  induction 1 as [rnd0 | f w w' _ IH H].
  - apply (build_level_invariant rnd0 start).
  - exact (frame_invariant f w w' IH H).
Qed.

Lemma main_reachable rnd0 frames w : main rnd0 frames = Some w -> reachable w.
Proof.
  unfold main. generalize (reachable_init rnd0).
  generalize (main_init rnd0) as w0. revert w.
  induction frames as [|f frames IH]; intros w w0 Hw0 H; simpl in H.
  - injection H as <-. exact Hw0.
  - destruct (frame f w0) as [w1|] eqn:E; [| discriminate].
    apply (IH w w1); [exact (reachable_frame f w0 w1 Hw0 E) | exact H].
Qed.

(** ** Health bounds (C3) *)

(** C3: the player's health is within [0, max_health] and [max_health] is
    100 after construction, after the per-tick update, after a
    [take_damage] call (the loop passes 20; any non-negative amount does),
    after the fall-off-screen rule, after a whole playing tick, and in
    every world the main loop reaches. *)
Theorem health_within_bounds :
  (forall px py, health_ok (Player.init px py)) /\
  (forall keys platforms p,
      health_ok p -> health_ok (Player.update keys platforms p)) /\
  (forall amount p,
      0 <= amount -> health_ok p -> health_ok (Player.take_damage amount p)) /\
  (forall p, health_ok p -> health_ok (fall_off_screen p)) /\
  (forall keys w,
      health_ok (player w) -> health_ok (player (update_playing keys w))) /\
  (forall w, reachable w -> health_ok (player w)).
Proof.
  unfold health_ok.
  split; [| split; [| split; [| split; [| split]]]].
  - intros px py. cbn. lia.
  - intros keys platforms p [Hm Hh].
    pose proof (update_vitals keys platforms p) as Hv.
    injection Hv as Hmax Hhealth _. rewrite Hmax, Hhealth. auto.
  - intros amount p Ha [Hm Hh].
    destruct (take_damage_vitals amount p) as (Hmax & _ & _).
    pose proof (take_damage_health amount p Ha ltac:(lia)).
    rewrite Hmax. split; [assumption | lia].
  - intros p [Hm Hh].
    destruct (fall_off_screen_spec p) as (Hmax & _ & H).
    specialize (H ltac:(lia)). rewrite Hmax. split; [assumption | lia].
  - intros keys w [Hm Hh].
    destruct (update_playing_spec keys w) as (Hmax & H & _).
    specialize (H ltac:(lia)). rewrite Hmax. split; [assumption | lia].
  - intros w Hw. apply reachable_invariant in Hw. apply Hw.
Qed.

Lemma health_within_bounds_witness :
  health_ok (Player.take_damage 20 (Player.init 60 490)) /\
  health_ok (player (update_playing no_keys last_coin_world)) /\
  health_ok (player (main_init (fun _ => 0))).
Proof.
  destruct health_within_bounds as (H0 & _ & H2 & _ & H4 & H5).
  split; [| split].
  - apply (H2 20 (Player.init 60 490)); [lia | apply H0].
  - apply (H4 no_keys last_coin_world). unfold health_ok. simpl. lia.
  - apply (H5 (main_init (fun _ => 0))). apply reachable_init.
Defined.

(** ** Score (C9) *)

(** C9: in every world the main loop reaches, the score is ten times the
    number of coins removed since the level was built, hence a
    non-negative multiple of 10; and one playing tick adds ten per coin it
    removes, however many it removes. *)
Theorem score_counts_collected_coins :
  (forall w,
      reachable w ->
      Player.score (player w) = 10 * (total_coins w - len (coins w)) /\
      0 <= total_coins w - len (coins w) /\
      0 <= Player.score (player w) /\
      Player.score (player w) mod 10 = 0) /\
  (forall keys w,
      Player.score (player (update_playing keys w))
      = Player.score (player w)
        + 10 * (len (coins w) - len (coins (update_playing keys w)))).
Proof.
  split.
  - intros w Hw. apply reachable_invariant in Hw.
    destruct Hw as (_ & _ & Hl & Hs).
    rewrite Hs. repeat split; try lia.
    rewrite Z.mul_comm. apply Z.mod_mul. lia.
  - intros keys w. apply (update_playing_spec keys w).
Qed.

(** The run [first_coin_run] is a run of [main]; on its way the player
    walks through the first ground enemy and picks up the coin spawned at
    (200, 535). *)
Lemma after_first_coin_reachable : reachable after_first_coin.
Proof.
  apply (main_reachable (fun _ => 0) first_coin_run).
  vm_compute. reflexivity.
Qed.

Example after_first_coin_state :
  state after_first_coin = playing /\
  len (coins after_first_coin) = 12 /\
  total_coins after_first_coin = 13 /\
  Player.score (player after_first_coin) = 10 /\
  Player.health (player after_first_coin) = 80.
Proof. vm_compute. repeat split. Qed.

Lemma score_counts_collected_coins_witness :
  (Player.score (player after_first_coin)
   = 10 * (total_coins after_first_coin - len (coins after_first_coin)) /\
   0 <= total_coins after_first_coin - len (coins after_first_coin) /\
   0 <= Player.score (player after_first_coin) /\
   Player.score (player after_first_coin) mod 10 = 0) /\
  Player.score (player (update_playing no_keys last_coin_world))
  = Player.score (player last_coin_world)
    + 10 * (len (coins last_coin_world)
            - len (coins (update_playing no_keys last_coin_world))).
Proof.
  destruct score_counts_collected_coins as [H1 H2].
  split.
  - apply (H1 after_first_coin).
    apply (main_reachable (fun _ => 0) first_coin_run).
    vm_compute. reflexivity.
  - apply (H2 no_keys last_coin_world).
Defined.

(** ** Health never goes up (C10) *)

(** C10: a freshly built player has health 100; neither the per-tick
    update, nor the damage the loop deals, nor the fall-off-screen rule
    raises it; so in every iteration of the main loop that does not
    rebuild the level, the health afterwards is at most the health
    before. *)
Theorem health_never_increases :
  (forall rnd0,
      Player.health (player (main_init rnd0)) = 100 /\
      Player.health (player (restart rnd0)) = 100) /\
  (forall keys platforms p,
      Player.health (Player.update keys platforms p) = Player.health p) /\
  (forall enemies p,
      0 <= Player.health p ->
      Player.health (enemy_contact enemies p) <= Player.health p) /\
  (forall p,
      0 <= Player.health p ->
      Player.health (fall_off_screen p) <= Player.health p) /\
  (forall f w w',
      reachable w ->
      frame f w = Some w' ->
      rebuilds (events f) (state w) = false ->
      Player.health (player w') <= Player.health (player w)).
Proof.
  split; [| split; [| split; [| split]]].
  - intros rnd0. split; reflexivity.
  - intros. apply update_health.
  - intros enemies p Hp. apply (enemy_contact_spec enemies p). assumption.
  - intros p Hp. apply (fall_off_screen_spec p). assumption.
  - intros f w w' Hw Hf Hr.
    apply reachable_invariant in Hw. destruct Hw as ((_ & Hh) & _).
    unfold frame in Hf.
    destruct (handle_events (rnd f) (events f) w) as [w1|] eqn:E;
      [| discriminate].
    destruct (handle_events_cases _ _ _ _ E) as [[_ ->] | [Hr' _]];
      [| congruence].
    destruct (update_playing_spec (keys f) w) as (_ & Hup & _).
    specialize (Hup ltac:(lia)).
    destruct (state w); inversion Hf; subst; lia.
Qed.

Lemma first_playing_world_reachable : reachable first_playing_world.
Proof.
  apply (reachable_frame confirm_frame (main_init (fun _ => 0))).
  - apply reachable_init.
  - reflexivity.
Qed.

Lemma health_never_increases_witness :
  Player.health (enemy_contact (enemies last_coin_world) (Player.init 60 490))
    <= Player.health (Player.init 60 490) /\
  Player.health (player (update_playing no_keys first_playing_world))
    <= Player.health (player first_playing_world).
Proof.
  destruct health_never_increases as (_ & _ & H2 & _ & H4).
  split.
  - apply (H2 (enemies last_coin_world) (Player.init 60 490)). simpl. lia.
  - apply (H4 idle_frame first_playing_world
              (update_playing no_keys first_playing_world)).
    + apply first_playing_world_reachable.
    + vm_compute. reflexivity.
    + reflexivity.
Defined.

(** ** Winning (C2) *)

(** C2, as stated, fails: in [last_coin_world] the phase is playing, the
    tick removes the last coin, and the same tick's enemy contact takes
    the last 20 health points; the later death check overwrites ["win"],
    so the tick ends in ["game_over"]. *)
Lemma win_overridden_counterexample :
  state last_coin_world = playing /\
  loop_invariant last_coin_world /\
  frame idle_frame last_coin_world
    = Some (update_playing no_keys last_coin_world) /\
  coins (update_playing no_keys last_coin_world) = [] /\
  Player.health (player (update_playing no_keys last_coin_world)) = 0 /\
  state (update_playing no_keys last_coin_world) = game_over /\
  state (update_playing no_keys last_coin_world) <> win.
Proof.
  split; [reflexivity |]. split.
  - unfold loop_invariant, health_ok. cbn. lia.
  - split; [reflexivity |]. vm_compute. repeat split. discriminate.
Qed.

(** C2 (amended): every world of a run has the 13 coins of the built
    level as its total; and if a playing tick of such a world leaves the
    coin set empty, then the phase after the tick is win and the coin
    counter reads 13/13, provided the player is not dead at the end of
    that tick; if the player is dead, the phase is game over. *)
Theorem empty_coin_set_wins_unless_dead :
  (forall w, reachable w -> total_coins w = 13) /\
  (forall (f : Frame) (w w' : World),
      state w = playing ->
      total_coins w = 13 ->
      frame f w = Some w' ->
      coins w' = [] ->
      (Player.is_dead (player w') = false ->
       state w' = win /\ coin_info w' = (13, 13)) /\
      (Player.is_dead (player w') = true -> state w' = game_over)).
Proof.
  split.
  { intros w Hw. apply reachable_invariant in Hw. apply Hw. }
  intros f w w' Hs Ht Hf Hc.
  unfold frame in Hf.
  destruct (handle_events (rnd f) (events f) w) as [w1|] eqn:E;
    [| discriminate].
  assert (Hw1 : w1 = w).
  { destruct (handle_events_cases _ _ _ _ E) as [[_ ->] | [Hr _]];
      [reflexivity |].
    exfalso. clear - Hs Hr. rewrite Hs in Hr.
    induction (events f) as [|[|[]|] evs IH]; simpl in Hr;
      try discriminate; auto. }
  subst w1. rewrite Hs in Hf. injection Hf as <-.
  destruct (update_playing_spec (keys f) w) as (_ & _ & _ & _ & Htot & Hst).
  cbn zeta in Hst. rewrite Hst.
  unfold coin_info. rewrite Htot, Ht, Hc.
  split; intros Hd; rewrite Hd; [split |]; reflexivity.
Qed.

Lemma empty_coin_set_wins_unless_dead_witness :
  total_coins (main_init (fun _ => 0)) = 13 /\
  state (update_playing no_keys winning_world) = win /\
  coin_info (update_playing no_keys winning_world) = (13, 13).
Proof.
  destruct empty_coin_set_wins_unless_dead as [H1 H2].
  split.
  - apply (H1 (main_init (fun _ => 0))). apply reachable_init.
  - apply (H2 idle_frame winning_world (update_playing no_keys winning_world));
      vm_compute; reflexivity.
Defined.

(** ** Collision resolution (C5) *)

(** C5, as stated, fails: the falling player lands on [low_step], the first
    platform hit, which zeroes [vel_y]; [high_step], one pixel higher and
    visited next, is then left overlapping the player's rectangle.  Before
    the move the player overlapped neither platform. *)
Lemma move_and_collide_overlap_counterexample :
  Rect.colliderect (Player.rect falling_player) (Platform.rect low_step)
    = false /\
  Rect.colliderect (Player.rect falling_player) (Platform.rect high_step)
    = false /\
  Player.rect (Player.move_and_collide [low_step; high_step] falling_player)
    = Rect.mk 0 2 32 48 /\
  Rect.colliderect
    (Player.rect (Player.move_and_collide [low_step; high_step] falling_player))
    (Platform.rect high_step) = true.
Proof. vm_compute. repeat split. Qed.

Section Touching.

Variables a b : Rect.t.
Hypothesis a_wide : 0 < Rect.w a.
Hypothesis a_tall : 0 < Rect.h a.
Hypothesis b_wide : 0 < Rect.w b.
Hypothesis b_tall : 0 < Rect.h b.

Lemma colliderect_spec :
  Rect.colliderect a b = true <->
  Rect.left a < Rect.right b /\ Rect.top a < Rect.bottom b /\
  Rect.left b < Rect.right a /\ Rect.top b < Rect.bottom a.
Proof.
  unfold Rect.colliderect, Rect.left, Rect.right, Rect.top, Rect.bottom.
  destruct (Z.eqb_spec (Rect.w a) 0); [lia |].
  destruct (Z.eqb_spec (Rect.h a) 0); [lia |].
  destruct (Z.eqb_spec (Rect.w b) 0); [lia |].
  destruct (Z.eqb_spec (Rect.h b) 0); [lia |].
  cbn [orb]. rewrite !andb_true_iff, !Z.ltb_lt. lia.
Qed.

Lemma touching_right_edge :
  Rect.right a = Rect.left b -> Rect.colliderect a b = false.
Proof.
  intros H. apply not_true_is_false. rewrite colliderect_spec. lia.
Qed.

Lemma touching_left_edge :
  Rect.left a = Rect.right b -> Rect.colliderect a b = false.
Proof.
  intros H. apply not_true_is_false. rewrite colliderect_spec. lia.
Qed.

Lemma touching_bottom_edge :
  Rect.bottom a = Rect.top b -> Rect.colliderect a b = false.
Proof.
  intros H. apply not_true_is_false. rewrite colliderect_spec. lia.
Qed.

Lemma touching_top_edge :
  Rect.top a = Rect.bottom b -> Rect.colliderect a b = false.
Proof.
  intros H. apply not_true_is_false. rewrite colliderect_spec. lia.
Qed.

End Touching.

Lemma first_hit_split r platforms plat :
  first_hit r platforms = Some plat ->
  exists pre post,
    platforms = pre ++ plat :: post /\
    Rect.colliderect r (Platform.rect plat) = true /\
    Forall (fun q => Rect.colliderect r (Platform.rect q) = false) pre.
Proof.
  unfold first_hit.
  induction platforms as [|q platforms IH]; simpl; [discriminate |].
  destruct (Rect.colliderect r (Platform.rect q)) eqn:E; intros H.
  - injection H as <-. exists [], platforms. auto.
  - destruct (IH H) as (pre & post & -> & Hc & Hpre).
    exists (q :: pre), post. auto.
Qed.

(** Platforms that do not collide leave the player as it is. *)
Lemma fold_no_collision (step : Player.t -> Platform.t -> Player.t) pre p :
  (forall q plat,
      Rect.colliderect (Player.rect q) (Platform.rect plat) = false ->
      step q plat = q) ->
  Forall (fun q => Rect.colliderect (Player.rect p) (Platform.rect q) = false)
         pre ->
  fold_left step pre p = p.
Proof.
  intros Hstep. induction 1 as [|q pre Hq _ IH]; simpl; [reflexivity |].
  rewrite Hstep by assumption. exact IH.
Qed.

Lemma collide_horizontal_miss q plat :
  Rect.colliderect (Player.rect q) (Platform.rect plat) = false ->
  Player.collide_horizontal q plat = q.
Proof. unfold Player.collide_horizontal. intros ->. reflexivity. Qed.

Lemma collide_vertical_miss q plat :
  Rect.colliderect (Player.rect q) (Platform.rect plat) = false ->
  Player.collide_vertical q plat = q.
Proof. unfold Player.collide_vertical. intros ->. reflexivity. Qed.

(** Once [vel_x] is 0, the horizontal loop no longer moves the player. *)
Lemma collide_horizontal_stopped post : forall q,
  Player.vel_x q = 0%Q ->
  Player.rect (fold_left Player.collide_horizontal post q) = Player.rect q /\
  Player.vel_y (fold_left Player.collide_horizontal post q) = Player.vel_y q.
Proof.
  induction post as [|plat post IH]; intros q Hq; simpl; [auto |].
  assert (H : Player.rect (Player.collide_horizontal q plat) = Player.rect q /\
              Player.vel_x (Player.collide_horizontal q plat) = 0%Q /\
              Player.vel_y (Player.collide_horizontal q plat) = Player.vel_y q).
  { unfold Player.collide_horizontal. rewrite Hq.
    destruct (Rect.colliderect _ _); cbn; auto. }
  destruct H as (Hr & Hx & Hy).
  destruct (IH _ Hx) as [IHr IHy]. split; congruence.
Qed.

(** Once [vel_y] is 0, the vertical loop no longer moves the player. *)
Lemma collide_vertical_stopped post : forall q,
  Player.vel_y q = 0%Q ->
  Player.rect (fold_left Player.collide_vertical post q) = Player.rect q.
Proof.
  induction post as [|plat post IH]; intros q Hq; simpl; [auto |].
  assert (H : Player.collide_vertical q plat = q).
  { unfold Player.collide_vertical. rewrite Hq.
    destruct (Rect.colliderect _ _); cbn; auto. }
  rewrite H. apply IH. assumption.
Qed.

(** The vertical pass changes neither [x] nor the size of the rectangle;
    the horizontal pass changes neither [y], nor the size, nor [vel_y]. *)
Lemma move_vertical_x platforms p :
  Rect.x (Player.rect (Player.move_vertical platforms p))
    = Rect.x (Player.rect p) /\
  Rect.w (Player.rect (Player.move_vertical platforms p))
    = Rect.w (Player.rect p) /\
  Rect.h (Player.rect (Player.move_vertical platforms p))
    = Rect.h (Player.rect p).
Proof.
  unfold Player.move_vertical. cbn zeta.
  apply (fold_left_invariant
           (fun q => Rect.x (Player.rect q) = Rect.x (Player.rect p) /\
                     Rect.w (Player.rect q) = Rect.w (Player.rect p) /\
                     Rect.h (Player.rect q) = Rect.h (Player.rect p))).
  - intros q plat H. unfold Player.collide_vertical. split_ifs; cbn; exact H.
  - cbn. auto.
Qed.

Lemma move_horizontal_y platforms p :
  Rect.y (Player.rect (Player.move_horizontal platforms p))
    = Rect.y (Player.rect p) /\
  Rect.w (Player.rect (Player.move_horizontal platforms p))
    = Rect.w (Player.rect p) /\
  Rect.h (Player.rect (Player.move_horizontal platforms p))
    = Rect.h (Player.rect p) /\
  Player.vel_y (Player.move_horizontal platforms p) = Player.vel_y p.
Proof.
  unfold Player.move_horizontal. cbn zeta.
  apply (fold_left_invariant
           (fun q => Rect.y (Player.rect q) = Rect.y (Player.rect p) /\
                     Rect.w (Player.rect q) = Rect.w (Player.rect p) /\
                     Rect.h (Player.rect q) = Rect.h (Player.rect p) /\
                     Player.vel_y q = Player.vel_y p)).
  - intros q plat H. unfold Player.collide_horizontal. split_ifs; cbn; exact H.
  - cbn. auto.
Qed.

(** The horizontal pass snaps the player against the first platform hit
    and ignores all others. *)
Lemma move_horizontal_first_hit platforms p plat :
  first_hit (moved_x p) platforms = Some plat ->
  Player.rect (Player.move_horizontal platforms p) =
  if Qltb 0 (Player.vel_x p) then
    Rect.set_right (Rect.left (Platform.rect plat)) (moved_x p)
  else if Qltb (Player.vel_x p) 0 then
    Rect.set_left (Rect.right (Platform.rect plat)) (moved_x p)
  else moved_x p.
Proof.
  intros H. destruct (first_hit_split _ _ _ H) as (pre & post & -> & Hc & Hpre).
  unfold Player.move_horizontal. cbn zeta. fold (moved_x p).
  rewrite fold_left_app. cbn [fold_left].
  rewrite (fold_no_collision _ pre _ collide_horizontal_miss) by exact Hpre.
  destruct (collide_horizontal_stopped post
              (Player.collide_horizontal (Player.set_rect (moved_x p) p) plat))
    as [-> _].
  - unfold Player.collide_horizontal.
    cbn [Player.rect Player.set_rect]. rewrite Hc. reflexivity.
  - unfold Player.collide_horizontal.
    cbn [Player.rect Player.set_rect Player.vel_x]. rewrite Hc.
    split_ifs; reflexivity.
Qed.

(** The vertical pass does the same on its axis. *)
Lemma move_vertical_first_hit platforms p plat :
  first_hit (moved_y p) platforms = Some plat ->
  Player.rect (Player.move_vertical platforms p) =
  if Qltb 0 (Player.vel_y p) then
    Rect.set_bottom (Rect.top (Platform.rect plat)) (moved_y p)
  else if Qltb (Player.vel_y p) 0 then
    Rect.set_top (Rect.bottom (Platform.rect plat)) (moved_y p)
  else moved_y p.
Proof.
  intros H. destruct (first_hit_split _ _ _ H) as (pre & post & -> & Hc & Hpre).
  unfold Player.move_vertical. cbn zeta.
  change (Rect.set_y _ (Player.rect (Player.set_on_ground false p)))
    with (moved_y p).
  rewrite fold_left_app. cbn [fold_left].
  rewrite (fold_no_collision _ pre _ collide_vertical_miss) by exact Hpre.
  unfold Player.collide_vertical at 2.
  cbn [Player.rect Player.set_rect Player.set_on_ground Player.vel_y].
  rewrite Hc.
  destruct (Qltb 0 (Player.vel_y p)) eqn:E1.
  - rewrite collide_vertical_stopped; reflexivity.
  - destruct (Qltb (Player.vel_y p) 0) eqn:E2.
    + rewrite collide_vertical_stopped; reflexivity.
    + (* vel_y is neither positive nor negative: nothing ever moves *)
      refine (proj1 (fold_left_invariant
               (fun q => Player.rect q = moved_y p /\
                         Qltb 0 (Player.vel_y q) = false /\
                         Qltb (Player.vel_y q) 0 = false) _ _ post _ _)).
      * intros q x (Hr & H1 & H2). unfold Player.collide_vertical.
        rewrite H1, H2.
        destruct (Rect.colliderect (Player.rect q) (Platform.rect x)); auto.
      * cbn. auto.
Qed.

(** C5 (amended): on each axis along which the player's velocity is not
    zero, after [move_and_collide] the player's rectangle does not overlap
    the first platform, in iteration order, that it collided with after
    moving along that axis.  (Other platforms of the list can remain
    overlapped.) *)
Theorem move_and_collide_clears_first_hit :
  forall (p : Player.t) (platforms : list Platform.t) (plat : Platform.t),
    Rect.positive (Player.rect p) ->
    Rect.positive (Platform.rect plat) ->
    (first_hit (moved_x p) platforms = Some plat ->
     nonzero (Player.vel_x p) = true ->
     Rect.colliderect (Player.rect (Player.move_and_collide platforms p))
                      (Platform.rect plat) = false) /\
    (first_hit (moved_y (Player.move_horizontal platforms p)) platforms
       = Some plat ->
     nonzero (Player.vel_y p) = true ->
     Rect.colliderect (Player.rect (Player.move_and_collide platforms p))
                      (Platform.rect plat) = false).
Proof.
  intros p platforms plat [Hpw Hph] [Hqw Hqh].
  unfold Player.move_and_collide, nonzero.
  set (p1 := Player.move_horizontal platforms p).
  destruct (move_vertical_x platforms p1) as (Vx & Vw & Vh).
  destruct (move_horizontal_y platforms p) as (Hy & Hw & Hh & Hvy).
  fold p1 in Hy, Hw, Hh, Hvy.
  split; intros Hhit Hnz.
  - pose proof (move_horizontal_first_hit platforms p plat Hhit) as Hr.
    fold p1 in Hr.
    destruct (Qltb 0 (Player.vel_x p)).
    + apply touching_right_edge; try lia.
      unfold Rect.right. rewrite Vx, Vw, Hr. cbn. unfold Rect.left. lia.
    + cbn [orb] in Hnz. rewrite Hnz in Hr.
      apply touching_left_edge; try lia.
      unfold Rect.left. rewrite Vx, Hr. cbn. reflexivity.
  - pose proof (move_vertical_first_hit platforms p1 plat Hhit) as Hr.
    rewrite Hvy in Hr.
    assert (Hh1 : 0 < Rect.h (Player.rect p1)) by lia.
    assert (Hw1 : 0 < Rect.w (Player.rect p1)) by lia.
    destruct (Qltb 0 (Player.vel_y p)).
    + apply touching_bottom_edge; try lia.
      rewrite Hr. unfold Rect.bottom, Rect.top. cbn. lia.
    + cbn [orb] in Hnz. rewrite Hnz in Hr.
      apply touching_top_edge; try lia.
      rewrite Hr. unfold Rect.bottom, Rect.top. cbn. reflexivity.
Qed.

Lemma move_and_collide_clears_first_hit_witness :
  Rect.colliderect
    (Player.rect (Player.move_and_collide [wall; low_step] walking_player))
    (Platform.rect wall) = false /\
  Rect.colliderect
    (Player.rect (Player.move_and_collide [low_step; high_step] falling_player))
    (Platform.rect low_step) = false.
Proof.
  split.
  - refine (proj1 (move_and_collide_clears_first_hit
                     walking_player [wall; low_step] wall _ _) _ _);
      first [reflexivity | vm_compute; split; reflexivity].
  - refine (proj2 (move_and_collide_clears_first_hit
                     falling_player [low_step; high_step] low_step _ _) _ _);
      first [reflexivity | vm_compute; split; reflexivity].
Defined.

(** ** Enemies in the main loop (C8) *)

Lemma update_playing_enemies keys w :
  enemies (update_playing keys w)
  = map (Enemy.update (platforms w)) (enemies w).
Proof.
  unfold update_playing.
  destruct (spritecollide_kill _ _). reflexivity.
Qed.

Lemma reachable_enemies_patrolling w :
  reachable w -> Forall patrolling (enemies w).
Proof.
  induction 1 as [rnd0 | f w w' _ IH H].
  - apply Forall_forall. apply level_enemies_patrolling.
  - unfold frame in H.
    destruct (handle_events (rnd f) (events f) w) as [w1|] eqn:E;
      [| discriminate].
    assert (H1 : Forall patrolling (enemies w1)).
    { destruct (handle_events_cases _ _ _ _ E) as [[_ ->] | [_ ->]];
        [assumption |].
      apply Forall_forall. apply (level_enemies_patrolling (rnd f)). }
    assert (H2 : Forall patrolling (enemies (update_playing (keys f) w1))).
    { rewrite update_playing_enemies. apply Forall_map.
      revert H1. apply Forall_impl. intros e. apply enemy_update_patrolling. }
    destruct (state w1); inversion H; subst; assumption.
Qed.

(** C8: every enemy of the built level, after any number of ticks of
    [Enemy.update] (whatever platforms each tick is given), keeps its
    patrol bounds and has its horizontal centre within
    [patrol_min, patrol_max]; and so has every enemy of every world the
    main loop reaches. *)
Theorem level_enemy_center_within_patrol :
  (forall (rnd0 : nat -> Z) (e : Enemy.t) (ticks : list (list Platform.t)),
      In e (enemies (main_init rnd0)) ->
      Enemy.patrol_min (enemy_ticks ticks e) = Enemy.patrol_min e /\
      Enemy.patrol_max (enemy_ticks ticks e) = Enemy.patrol_max e /\
      Enemy.patrol_min e <= Rect.centerx (Enemy.rect (enemy_ticks ticks e))
        <= Enemy.patrol_max e) /\
  (forall w,
      reachable w ->
      Forall (fun e => Enemy.patrol_min e <= Rect.centerx (Enemy.rect e)
                       <= Enemy.patrol_max e)
             (enemies w)).
Proof.
  split.
  - intros rnd0 e ticks He.
    destruct (enemy_ticks_patrolling ticks e
                (level_enemies_patrolling rnd0 e He)) as (Hp & Hmin & Hmax).
    pose proof (patrolling_center _ Hp) as Hc.
    repeat split; try assumption; lia.
  - intros w Hw. apply reachable_enemies_patrolling in Hw.
    revert Hw. apply Forall_impl. exact patrolling_center.
Qed.

Lemma level_enemy_center_within_patrol_witness :
  280 <= Rect.centerx
           (Enemy.rect
              (enemy_ticks (repeat (platforms (main_init (fun _ => 0))) 200)
                           (Enemy.init 283 338 280 400)))
      <= 400 /\
  Forall (fun e => Enemy.patrol_min e <= Rect.centerx (Enemy.rect e)
                   <= Enemy.patrol_max e)
         (enemies first_playing_world).
Proof.
  destruct level_enemy_center_within_patrol as [H1 H2].
  split.
  - apply (H1 (fun _ => 0) (Enemy.init 283 338 280 400)
              (repeat (platforms (main_init (fun _ => 0))) 200)).
    cbn. auto.
  - apply (H2 first_playing_world).
    apply (reachable_frame confirm_frame (main_init (fun _ => 0))).
    + apply reachable_init.
    + reflexivity.
Defined.

(** * Further properties of the code *)

(** ** Rectangles *)

(** [colliderect] is symmetric; a rectangle of zero width or height
    collides with nothing; and two rectangles of positive size collide
    exactly when their interiors overlap on both axes, so that rectangles
    which only share an edge do not collide. *)
Theorem colliderect_overlap :
  (forall a b, Rect.colliderect a b = Rect.colliderect b a) /\
  (forall a b,
      Rect.w a = 0 \/ Rect.h a = 0 -> Rect.colliderect a b = false) /\
  (forall a b,
      Rect.positive a -> Rect.positive b ->
      (Rect.colliderect a b = true <->
       Rect.left a < Rect.right b /\ Rect.left b < Rect.right a /\
       Rect.top a < Rect.bottom b /\ Rect.top b < Rect.bottom a)).
Proof.
  split; [| split].
  - intros a b. unfold Rect.colliderect.
    destruct (Rect.w a =? 0), (Rect.h a =? 0),
             (Rect.w b =? 0), (Rect.h b =? 0); cbn [orb]; try reflexivity.
    destruct (Z.min (Rect.x a) _ <? _), (Z.min (Rect.y a) _ <? _),
             (Z.min (Rect.x b) _ <? _), (Z.min (Rect.y b) _ <? _);
      reflexivity.
  - intros a b H. unfold Rect.colliderect.
    destruct (Z.eqb_spec (Rect.w a) 0); [reflexivity |].
    destruct (Z.eqb_spec (Rect.h a) 0); [reflexivity |]. lia.
  - intros a b [Haw Hah] [Hbw Hbh].
    rewrite (colliderect_spec a b Haw Hah Hbw Hbh). tauto.
Qed.

Lemma colliderect_overlap_witness :
  Rect.colliderect (Rect.mk 0 0 0 48) (Rect.mk 0 0 32 48) = false /\
  (Rect.colliderect (Rect.mk 0 0 32 48) (Rect.mk 32 0 10 48) = true <->
   0 < 42 /\ 32 < 32 /\ 0 < 48 /\ 0 < 48).
Proof.
  destruct colliderect_overlap as (_ & H1 & H2).
  split.
  - apply (H1 (Rect.mk 0 0 0 48) (Rect.mk 0 0 32 48)). left. reflexivity.
  - apply (H2 (Rect.mk 0 0 32 48) (Rect.mk 32 0 10 48));
      unfold Rect.positive; simpl; lia.
Defined.

(** ** Player controls *)

Lemma handle_horizontal_frame keys p :
  Player.on_ground (fst (Player.handle_horizontal keys p)) = Player.on_ground p /\
  Player.vel_y (fst (Player.handle_horizontal keys p)) = Player.vel_y p.
Proof.
  unfold Player.handle_horizontal. cbn zeta. split_ifs; cbn; auto.
Qed.

Lemma jump_only_from_ground_frame :
  forall (keys : Keys) (p : Player.t),
    (Player.jump_held keys = true -> Player.on_ground p = true ->
     Player.vel_y (Player.handle_input keys p) = inject_Z JUMP_FORCE /\
     Player.on_ground (Player.handle_input keys p) = false) /\
    (Player.jump_held keys = false \/ Player.on_ground p = false ->
     Player.vel_y (Player.handle_input keys p) = Player.vel_y p /\
     Player.on_ground (Player.handle_input keys p) = Player.on_ground p).
Proof.
  intros keys p.
  destruct (handle_horizontal_frame keys p) as [Hg1 Hv1].
  unfold Player.handle_input.
  destruct (Player.handle_horizontal keys p) as [p1 moving].
  cbn [fst] in Hg1, Hv1.
  split.
  - intros Hj Hg. rewrite Hj, Hg1, Hg. cbn.
    rewrite andb_false_r. cbn. split; reflexivity.
  - intros H.
    assert (Hc : Player.jump_held keys && Player.on_ground p1 = false).
    { rewrite Hg1. destruct H as [-> | ->];
        [reflexivity | apply andb_false_r]. }
    rewrite Hc. destruct (moving && Player.on_ground p1); cbn; auto.
Qed.

(** A jump happens exactly when a jump key is held and the player is on
    the ground: it sets [vel_y] to [JUMP_FORCE] and clears [on_ground];
    in the air, or without a jump key, [handle_input] leaves [vel_y] and
    [on_ground] as they are. *)
Theorem jump_only_from_ground :
  forall (keys : Keys) (p : Player.t),
    (Player.jump_held keys = true -> Player.on_ground p = true ->
     Player.vel_y (Player.handle_input keys p) = inject_Z JUMP_FORCE /\
     Player.on_ground (Player.handle_input keys p) = false) /\
    (Player.jump_held keys = false \/ Player.on_ground p = false ->
     Player.vel_y (Player.handle_input keys p) = Player.vel_y p /\
     Player.on_ground (Player.handle_input keys p) = Player.on_ground p).
Proof.
  intros keys p.
  destruct (handle_horizontal_frame keys p) as [Hg1 Hv1].
  unfold Player.handle_input.
  destruct (Player.handle_horizontal keys p) as [p1 moving].
  cbn [fst] in Hg1, Hv1.
  split.
  - intros Hj Hg. rewrite Hj, Hg1, Hg. cbn.
    rewrite andb_false_r. cbn. split; reflexivity.
  - intros H.
    assert (Hc : Player.jump_held keys && Player.on_ground p1 = false).
    { rewrite Hg1. destruct H as [-> | ->];
        [reflexivity | apply andb_false_r]. }
    rewrite Hc. destruct (moving && Player.on_ground p1); cbn; auto.
Qed.

Lemma jump_only_from_ground_witness :
  Player.vel_y
    (Player.handle_input (fun k => match k with K_SPACE => true | _ => false end)
                         (player last_coin_world)) = inject_Z JUMP_FORCE /\
  Player.vel_y
    (Player.handle_input (fun k => match k with K_SPACE => true | _ => false end)
                         (Player.init 60 490)) = Player.vel_y (Player.init 60 490).
Proof.
  split.
  - apply (jump_only_from_ground
             (fun k => match k with K_SPACE => true | _ => false end)
             (player last_coin_world)); reflexivity.
  - apply (jump_only_from_ground
             (fun k => match k with K_SPACE => true | _ => false end)
             (Player.init 60 490)). right. reflexivity.
Defined.

(** ** Velocities *)

Lemma Qltb_true a b : Qltb a b = true <-> (a < b)%Q.
Proof.
  unfold Qltb. rewrite negb_true_iff. split.
  - intros H. apply Qnot_le_lt. intros Hle.
    apply Qle_bool_iff in Hle. congruence.
  - intros H. apply not_true_is_false. intros Hle.
    apply Qle_bool_iff in Hle. apply (Qlt_not_le _ _ H Hle).
Qed.

Lemma Qltb_false a b : Qltb a b = false <-> (b <= a)%Q.
Proof.
  unfold Qltb. rewrite negb_false_iff. apply Qle_bool_iff.
Qed.

(** What [handle_input] makes of the horizontal velocity. *)
Lemma handle_input_vel_x keys p :
  Player.vel_x (Player.handle_input keys p) =
  if Player.left_held keys then inject_Z (- PLAYER_SPEED)
  else if Player.right_held keys then inject_Z PLAYER_SPEED
  else if Qltb (Qabs (Player.vel_x p * 0.75)) 0.5 then 0%Q
  else (Player.vel_x p * 0.75)%Q.
Proof.
  unfold Player.handle_input, Player.handle_horizontal. cbn zeta.
  destruct (Player.left_held keys); [| destruct (Player.right_held keys)];
    cbn; split_ifs; reflexivity.
Qed.

Lemma handle_input_facing keys p :
  Player.facing_right (Player.handle_input keys p) =
  if Player.left_held keys then false
  else if Player.right_held keys then true
  else Player.facing_right p.
Proof.
  unfold Player.handle_input, Player.handle_horizontal. cbn zeta.
  destruct (Player.left_held keys); [| destruct (Player.right_held keys)];
    cbn; split_ifs; reflexivity.
Qed.

(** The collision passes either keep a velocity or set it to 0. *)
Lemma move_and_collide_velocities platforms p :
  (Player.vel_x (Player.move_and_collide platforms p) = Player.vel_x p \/
   Player.vel_x (Player.move_and_collide platforms p) = 0%Q) /\
  (Player.vel_y (Player.move_and_collide platforms p) = Player.vel_y p \/
   Player.vel_y (Player.move_and_collide platforms p) = 0%Q).
Proof.
  unfold Player.move_and_collide, Player.move_vertical, Player.move_horizontal.
  cbn zeta.
  apply (fold_left_invariant
           (fun q => (Player.vel_x q = Player.vel_x p \/ Player.vel_x q = 0%Q) /\
                     (Player.vel_y q = Player.vel_y p \/ Player.vel_y q = 0%Q))).
  { intros q plat H. unfold Player.collide_vertical. split_ifs; cbn; tauto. }
  match goal with
  | |- context [fold_left Player.collide_horizontal _ ?q0] =>
      cut ((Player.vel_x (fold_left Player.collide_horizontal platforms q0)
              = Player.vel_x p \/
            Player.vel_x (fold_left Player.collide_horizontal platforms q0)
              = 0%Q) /\
           (Player.vel_y (fold_left Player.collide_horizontal platforms q0)
              = Player.vel_y p \/
            Player.vel_y (fold_left Player.collide_horizontal platforms q0)
              = 0%Q)); [cbn; tauto |]
  end.
  apply (fold_left_invariant
           (fun q => (Player.vel_x q = Player.vel_x p \/ Player.vel_x q = 0%Q) /\
                     (Player.vel_y q = Player.vel_y p \/ Player.vel_y q = 0%Q))).
  { intros q plat H. unfold Player.collide_horizontal. split_ifs; cbn; tauto. }
  cbn. tauto.
Qed.

Lemma update_velocities keys platforms p :
  let q := Player.apply_gravity (Player.handle_input keys p) in
  (Player.vel_x (Player.update keys platforms p) = Player.vel_x q \/
   Player.vel_x (Player.update keys platforms p) = 0%Q) /\
  (Player.vel_y (Player.update keys platforms p) = Player.vel_y q \/
   Player.vel_y (Player.update keys platforms p) = 0%Q).
Proof.
  intros q.
  pose proof (move_and_collide_velocities platforms q) as H.
  unfold Player.update. fold q. cbn zeta.
  split_ifs; cbn; exact H.
Qed.

Lemma apply_gravity_vel p :
  Player.vel_x (Player.apply_gravity p) = Player.vel_x p /\
  (Player.vel_y (Player.apply_gravity p) <= 20)%Q /\
  (Player.vel_y p <= Player.vel_y (Player.apply_gravity p)
   \/ Player.vel_y (Player.apply_gravity p) = 20%Q)%Q /\
  (Player.vel_y p + GRAVITY <= 20 ->
   Player.vel_y (Player.apply_gravity p) = Player.vel_y p + GRAVITY)%Q.
Proof.
  unfold Player.apply_gravity, GRAVITY. cbn zeta.
  cbn [Player.vel_y Player.set_vel_y].
  destruct (Qltb 20 (Player.vel_y p + 0.6)) eqn:E; cbn.
  - apply Qltb_true in E.
    repeat split; first [lra | right; reflexivity | reflexivity].
  - apply Qltb_false in E.
    repeat split; first [lra | left; lra | reflexivity].
Qed.

(** [Player.update] keeps the velocities within what the controls and
    gravity can produce: horizontally within [-PLAYER_SPEED, PLAYER_SPEED],
    vertically between [JUMP_FORCE] and the terminal velocity 20.  The cap
    of 20 holds after every update, whatever the velocity was before. *)
Theorem update_keeps_speed_ok :
  forall (keys : Keys) (platforms : list Platform.t) (p : Player.t),
    (Player.vel_y (Player.update keys platforms p) <= 20)%Q /\
    (speed_ok p -> speed_ok (Player.update keys platforms p)).
Proof.
  intros keys platforms p.
  destruct (update_velocities keys platforms p) as [Hx Hy].
  cbn zeta in Hx, Hy.
  destruct (apply_gravity_vel (Player.handle_input keys p))
    as (Gx & Gcap & Glow & _).
  split.
  - destruct Hy as [-> | ->]; [exact Gcap | lra].
  - unfold speed_ok, PLAYER_SPEED, JUMP_FORCE, inject_Z.
    intros [Hvx Hvy].
    assert (Ix : (-(4) <= Player.vel_x (Player.handle_input keys p) <= 4)%Q).
    { rewrite handle_input_vel_x. unfold PLAYER_SPEED, inject_Z. cbn [Z.opp].
      destruct (Player.left_held keys); [lra |].
      destruct (Player.right_held keys); [lra |].
      destruct (Qltb _ _); lra. }
    assert (Iy : (-(14) <= Player.vel_y (Player.handle_input keys p))%Q).
    { destruct (Player.jump_held keys && Player.on_ground p) eqn:Ej.
      - apply andb_true_iff in Ej. destruct Ej as [Ej Eg].
        destruct (jump_only_from_ground_frame keys p) as [H _].
        destruct (H Ej Eg) as [-> _]. unfold JUMP_FORCE, inject_Z. lra.
      - apply andb_false_iff in Ej.
        destruct (jump_only_from_ground_frame keys p) as [_ H].
        destruct (H Ej) as [-> _]. lra. }
    rewrite Gx in Hx. split.
    + destruct Hx as [-> | ->]; lra.
    + destruct Hy as [-> | ->]; [| lra].
      split; [| exact Gcap]. destruct Glow as [Glow | ->]; lra.
Qed.

Lemma update_keeps_speed_ok_witness :
  speed_ok (Player.update no_keys (platforms last_coin_world)
                          (Player.init 60 490)).
Proof.
  apply (update_keeps_speed_ok no_keys (platforms last_coin_world)
                               (Player.init 60 490)).
  unfold speed_ok, Qle. simpl. lia.
Defined.

(** With no left key held, a right key gives [+PLAYER_SPEED] and makes the
    player face right.  With no direction key held the player keeps
    facing where it did, friction never speeds it up and never reverses
    it, and the result is either exactly 0 or at least 0.5 in
    magnitude. *)
Theorem direction_keys :
  forall (keys : Keys) (p : Player.t),
    Player.left_held keys = false ->
    (Player.right_held keys = true ->
     Player.vel_x (Player.handle_input keys p) = inject_Z PLAYER_SPEED /\
     Player.facing_right (Player.handle_input keys p) = true) /\
    (Player.right_held keys = false ->
     Player.facing_right (Player.handle_input keys p) = Player.facing_right p /\
     (Qabs (Player.vel_x (Player.handle_input keys p))
        <= Qabs (Player.vel_x p))%Q /\
     (0 <= Player.vel_x (Player.handle_input keys p) * Player.vel_x p)%Q /\
     (Player.vel_x (Player.handle_input keys p) = 0%Q \/
      (0.5 <= Qabs (Player.vel_x (Player.handle_input keys p)))%Q)).
Proof.
  intros keys p Hl.
  rewrite handle_input_vel_x, handle_input_facing, Hl.
  split; intros Hr; rewrite Hr.
  - split; reflexivity.
  - split; [reflexivity |].
    pose proof (Qabs_nonneg (Player.vel_x p)) as Hn.
    destruct (Qltb (Qabs (Player.vel_x p * 0.75)) 0.5) eqn:E.
    + split; [| split; [| left; reflexivity]].
      * change (Qabs 0) with 0%Q. exact Hn.
      * lra.
    + apply Qltb_false in E. split; [| split; [| right; exact E]].
      * rewrite Qabs_Qmult. change (Qabs 0.75) with 0.75%Q. lra.
      * nra.
Qed.

Lemma direction_keys_witness :
  Player.vel_x
    (Player.handle_input (fun k => match k with K_d => true | _ => false end)
                         (Player.init 60 490)) = inject_Z PLAYER_SPEED /\
  Player.facing_right (Player.handle_input no_keys (player last_coin_world))
    = Player.facing_right (player last_coin_world).
Proof.
  split.
  - apply (direction_keys (fun k => match k with K_d => true | _ => false end)
                          (Player.init 60 490)); reflexivity.
  - apply (direction_keys no_keys (player last_coin_world)); reflexivity.
Defined.

(** ** Friction *)

(** One update without a direction key: a speed of at most [b] becomes at
    most [0.75 * b], and exactly 0 once that is below the 0.5 threshold. *)
Lemma idle_update_vel_x keys platforms p (b : Q) :
  Player.left_held keys = false ->
  Player.right_held keys = false ->
  (- b <= Player.vel_x p <= b)%Q ->
  (- (0.75 * b) <= Player.vel_x (Player.update keys platforms p) <= 0.75 * b)%Q /\
  (0.75 * b < 0.5 -> Player.vel_x (Player.update keys platforms p) = 0)%Q.
Proof.
  intros Hl Hr Hb.
  destruct (update_velocities keys platforms p) as [Hx _]. cbn zeta in Hx.
  destruct (apply_gravity_vel (Player.handle_input keys p)) as (Gx & _).
  rewrite Gx, handle_input_vel_x, Hl, Hr in Hx.
  destruct (Qltb (Qabs (Player.vel_x p * 0.75)) 0.5) eqn:E.
  - assert (H0 : Player.vel_x (Player.update keys platforms p) = 0%Q)
      by (destruct Hx; assumption).
    rewrite H0. split; [lra | reflexivity].
  - apply Qltb_false in E. split.
    + destruct Hx as [-> | ->]; lra.
    + intros Hsmall. exfalso.
      assert (Habs : (Qabs (Player.vel_x p * 0.75) < 0.5)%Q).
      { apply Qabs_Qlt_condition. lra. }
      lra.
Qed.

Lemma still_stays_still inputs : forall p,
  no_direction inputs ->
  Player.vel_x p = 0%Q ->
  Player.vel_x (updates inputs p) = 0%Q.
Proof.
  unfold updates, no_direction.
  induction inputs as [|[k pl] inputs IH]; intros p Hn Hp; simpl fold_left.
  - exact Hp.
  - inversion Hn as [|? ? [Hl Hr] Hn']; subst. cbn [fst] in Hl, Hr.
    apply IH; [exact Hn' |].
    apply (idle_update_vel_x k pl p 0.5 Hl Hr); [rewrite Hp; lra | lra].
Qed.

(** Friction brings the player to rest: starting from any horizontal
    velocity within [-PLAYER_SPEED, PLAYER_SPEED], after eight or more
    updates in which no direction key is held, [vel_x] is exactly 0. *)
Theorem friction_stops_player :
  forall (inputs : list (Keys * list Platform.t)) (p : Player.t),
    no_direction inputs ->
    (8 <= length inputs)%nat ->
    (- inject_Z PLAYER_SPEED <= Player.vel_x p <= inject_Z PLAYER_SPEED)%Q ->
    Player.vel_x (updates inputs p) = 0%Q.
Proof.
  intros inputs p Hn Hlen Hv.
  unfold PLAYER_SPEED, inject_Z in Hv.
  do 8 (destruct inputs as [|[? ?] inputs]; [simpl in Hlen; lia |]).
  clear Hlen. unfold no_direction in Hn.
  repeat match goal with
         | H : Forall _ (_ :: _) |- _ =>
             let Hd := fresh "Hd" in
             inversion H as [|? ? Hd ?]; subst; clear H;
             cbn [fst] in Hd; destruct Hd
         end.
  unfold updates. cbn [fold_left].
  fold (updates inputs).
  apply still_stays_still; [assumption |].
  repeat match goal with
         | Hl : Player.left_held ?k = false,
           Hr : Player.right_held ?k = false,
           Hb : (- ?b <= Player.vel_x ?q <= ?b)%Q
           |- context [Player.update ?k ?pl ?q] =>
             let H1 := fresh "Hb" in
             destruct (idle_update_vel_x k pl q b Hl Hr Hb) as [H1 ?];
             clear Hb
         end.
  match goal with
  | H : (_ < 0.5)%Q -> ?g |- ?g => apply H; lra
  end.
Qed.

Lemma friction_stops_player_witness :
  Player.vel_x (updates (repeat (no_keys, []) 8) walking_player) = 0%Q.
Proof.
  apply (friction_stops_player (repeat (no_keys, []) 8) walking_player).
  - unfold no_direction. simpl. repeat constructor.
  - simpl. lia.
  - unfold Qle. simpl. lia.
Defined.

(** Eight is the least such number: from full speed, seven idle updates
    leave a velocity of 4 * 0.75^7 = 2187/4096. *)
Example friction_seven_updates_not_enough :
  (Player.vel_x (updates (repeat (no_keys, []) 7) walking_player)
     == 2187 # 4096)%Q.
Proof. vm_compute. reflexivity. Qed.

(** ** Screen bounds *)

Lemma update_size keys platforms p :
  Rect.w (Player.rect (Player.update keys platforms p)) = Rect.w (Player.rect p) /\
  Rect.h (Player.rect (Player.update keys platforms p)) = Rect.h (Player.rect p).
Proof.
  destruct (handle_input_vitals keys p) as (_ & _ & R1).
  destruct (apply_gravity_vitals (Player.handle_input keys p)) as (_ & _ & R2).
  set (q := Player.apply_gravity (Player.handle_input keys p)) in *.
  destruct (move_horizontal_y platforms q) as (_ & Hw & Hh & _).
  destruct (move_vertical_x platforms (Player.move_horizontal platforms q))
    as (_ & Vw & Vh).
  assert (Hq : Player.rect q = Player.rect p) by congruence.
  unfold Player.update. fold q. unfold Player.move_and_collide. cbn zeta.
  rewrite <- Hq, <- Hw, <- Hh, <- Vw, <- Vh.
  split_ifs; cbn; split; reflexivity.
Qed.

(** After every update the player's rectangle, whose size never changes,
    lies within the horizontal extent of the screen (for any rectangle
    not wider than the screen). *)
Theorem update_stays_on_screen :
  forall (keys : Keys) (platforms : list Platform.t) (p : Player.t),
    0 <= Rect.w (Player.rect p) <= SCREEN_W ->
    Rect.w (Player.rect (Player.update keys platforms p))
      = Rect.w (Player.rect p) /\
    Rect.h (Player.rect (Player.update keys platforms p))
      = Rect.h (Player.rect p) /\
    0 <= Rect.left (Player.rect (Player.update keys platforms p)) /\
    Rect.right (Player.rect (Player.update keys platforms p)) <= SCREEN_W.
Proof.
  intros keys platforms p Hw.
  destruct (update_size keys platforms p) as [Sw Sh].
  split; [exact Sw |]. split; [exact Sh |].
  rewrite <- Sw in Hw. revert Hw. clear Sw Sh.
  unfold Player.update. cbn zeta.
  set (q := Player.move_and_collide platforms _).
  set (q1 := if 0 <? Player.invincible_timer q then _ else q).
  clearbody q1. clear q.
  destruct q1 as [[x y w h] vx vy g mh hp sc it fr wf].
  unfold Rect.left, Rect.right, SCREEN_W. cbn -[Z.ltb Z.add Z.sub].
  destruct (Z.ltb_spec x 0) as [Hl | Hl]; cbn -[Z.ltb Z.add Z.sub].
  - destruct (Z.ltb_spec 800 (0 + w)) as [Hr | Hr];
      cbn -[Z.ltb Z.add Z.sub]; lia.
  - destruct (Z.ltb_spec 800 (x + w)) as [Hr | Hr];
      cbn -[Z.ltb Z.add Z.sub]; lia.
Qed.

Lemma update_stays_on_screen_witness :
  0 <= Rect.left
         (Player.rect
            (Player.update left_and_right [] (Player.init 2 490))) /\
  Rect.right
    (Player.rect (Player.update left_and_right [] (Player.init 2 490)))
    <= SCREEN_W.
Proof.
  apply (update_stays_on_screen left_and_right [] (Player.init 2 490)).
  unfold SCREEN_W, Player.init, Player.width. simpl. lia.
Defined.

(** ** Invincibility countdown *)

(** The invincibility timer counts down by one per update and stops at 0:
    after [n] updates a timer that was [t >= 0] is [max 0 (t - n)]. *)
Theorem invincible_timer_counts_down :
  forall (inputs : list (Keys * list Platform.t)) (p : Player.t),
    0 <= Player.invincible_timer p ->
    Player.invincible_timer (updates inputs p)
    = Z.max 0 (Player.invincible_timer p - len inputs).
Proof.
  unfold updates, len.
  induction inputs as [|[k pl] inputs IH]; intros p Ht; simpl fold_left.
  - simpl. lia.
  - assert (Hu := update_invincible_timer k pl p).
    destruct (Z.ltb_spec 0 (Player.invincible_timer p)) as [Hpos | Hz];
      rewrite IH; rewrite Hu; simpl length; lia.
Qed.

Lemma invincible_timer_counts_down_witness :
  Player.invincible_timer
    (updates ten_idle_ticks (Player.take_damage 20 (Player.init 60 490)))
  = Z.max 0 (90 - 10).
Proof.
  apply (invincible_timer_counts_down
           ten_idle_ticks (Player.take_damage 20 (Player.init 60 490))).
  simpl. lia.
Defined.

(** ** The blink while invincible *)

(** [draw] skips the player exactly when the invincibility timer is
    positive and lies in the lower half of its block of ten (timer mod 10
    below 5); otherwise it blits at the player's rectangle, flipped when
    the player faces left.  A player that is not invincible is always
    drawn. *)
Theorem draw_blinks :
  forall p : Player.t,
    (Player.draw p = None <->
     0 < Player.invincible_timer p /\ Player.invincible_timer p mod 10 < 5) /\
    (Player.draw p <> None ->
     Player.draw p = Some (negb (Player.facing_right p), Player.rect p)).
Proof.
  intros p. unfold Player.draw.
  set (t := Player.invincible_timer p).
  assert (Hmod : (t / 5) mod 2 = 0 <-> t mod 10 < 5).
  { pose proof (Z.div_mod t 10 ltac:(lia)).
    pose proof (Z.mod_pos_bound t 10 ltac:(lia)).
    pose proof (Z.div_mod t 5 ltac:(lia)).
    pose proof (Z.mod_pos_bound t 5 ltac:(lia)).
    pose proof (Z.div_mod (t / 5) 2 ltac:(lia)).
    pose proof (Z.mod_pos_bound (t / 5) 2 ltac:(lia)).
    lia. }
  destruct (Z.ltb_spec 0 t) as [Hpos | Hz];
    destruct (Z.eqb_spec ((t / 5) mod 2) 0) as [He | He]; cbn.
  - split; [| congruence]. split; [intros _ | reflexivity].
    split; [assumption | apply Hmod; assumption].
  - split; [| reflexivity]. split; [discriminate |].
    intros [_ H]. apply Hmod in H. contradiction.
  - split; [| reflexivity]. split; [discriminate | lia].
  - split; [| reflexivity]. split; [discriminate | lia].
Qed.

Lemma draw_blinks_witness :
  Player.draw (Player.init 60 490)
  = Some (negb (Player.facing_right (Player.init 60 490)),
          Player.rect (Player.init 60 490)).
Proof.
  apply (draw_blinks (Player.init 60 490)). vm_compute. discriminate.
Defined.

(** ** Landing *)

Lemma first_hit_none r platforms :
  first_hit r platforms = None ->
  Forall (fun q => Rect.colliderect r (Platform.rect q) = false) platforms.
Proof.
  unfold first_hit. intros H. apply Forall_forall. intros q Hq.
  exact (find_none _ _ H q Hq).
Qed.

(** With a [vel_y] that is neither positive nor negative the vertical
    loop does nothing. *)
Lemma collide_vertical_idle post : forall q,
  Qltb 0 (Player.vel_y q) = false ->
  Qltb (Player.vel_y q) 0 = false ->
  fold_left Player.collide_vertical post q = q.
Proof.
  induction post as [|plat post IH]; intros q H1 H2; simpl; [reflexivity |].
  assert (H : Player.collide_vertical q plat = q).
  { unfold Player.collide_vertical. rewrite H1, H2.
    destruct (Rect.colliderect _ _); reflexivity. }
  rewrite H. apply IH; assumption.
Qed.

(** The vertical pass is one resolution step against the first platform
    hit, or nothing when no platform is hit. *)
Lemma move_vertical_cases platforms p :
  let q0 := Player.set_rect (moved_y p) (Player.set_on_ground false p) in
  Player.move_vertical platforms p =
  match first_hit (moved_y p) platforms with
  | Some plat => Player.collide_vertical q0 plat
  | None => q0
  end.
Proof.
  intros q0. unfold Player.move_vertical. cbn zeta.
  change (Player.set_rect _ (Player.set_on_ground false p)) with q0.
  destruct (first_hit (moved_y p) platforms) as [plat|] eqn:E.
  - destruct (first_hit_split _ _ _ E) as (pre & post & -> & Hc & Hpre).
    rewrite fold_left_app. cbn [fold_left].
    rewrite (fold_no_collision _ pre q0 collide_vertical_miss) by exact Hpre.
    apply collide_vertical_idle;
      unfold Player.collide_vertical; subst q0;
      cbn [Player.rect Player.set_rect Player.set_on_ground Player.vel_y];
      rewrite Hc;
      destruct (Qltb 0 (Player.vel_y p)) eqn:E1; try reflexivity;
      destruct (Qltb (Player.vel_y p) 0) eqn:E2; try reflexivity;
      cbn; assumption.
  - apply (fold_no_collision _ platforms q0 collide_vertical_miss).
    exact (first_hit_none _ _ E).
Qed.

(** After [move_and_collide] the player is on the ground exactly when it
    was moving down and its rectangle, moved down, hit a platform; it
    then has [vel_y = 0] and stands on the first platform hit: the bottom
    of its rectangle is that platform's top. *)
Theorem on_ground_means_landed :
  forall (platforms : list Platform.t) (p : Player.t),
    let p1 := Player.move_horizontal platforms p in
    let p' := Player.move_and_collide platforms p in
    (Player.on_ground p' = true <->
     (0 < Player.vel_y p)%Q /\ first_hit (moved_y p1) platforms <> None) /\
    (Player.on_ground p' = true ->
     Player.vel_y p' = 0%Q /\
     exists plat,
       first_hit (moved_y p1) platforms = Some plat /\
       In plat platforms /\
       Rect.bottom (Player.rect p') = Rect.top (Platform.rect plat)).
Proof.
  intros platforms p p1 p'.
  destruct (move_horizontal_y platforms p) as (_ & _ & _ & Hvy).
  fold p1 in Hvy.
  assert (Hp' : p' = Player.move_vertical platforms p1) by reflexivity.
  rewrite Hp', (move_vertical_cases platforms p1).
  cbn zeta.
  destruct (first_hit (moved_y p1) platforms) as [plat|] eqn:E.
  - destruct (first_hit_split _ _ _ E) as (pre & post & Hl & Hc & _).
    unfold Player.collide_vertical.
    cbn [Player.rect Player.set_rect Player.set_on_ground Player.vel_y].
    rewrite Hc, Hvy.
    destruct (Qltb 0 (Player.vel_y p)) eqn:E1.
    + apply Qltb_true in E1. cbn. split.
      * split; [intros _; split; [exact E1 | discriminate] | reflexivity].
      * intros _. split; [reflexivity |]. exists plat.
        split; [reflexivity |]. split.
        { rewrite Hl. apply in_or_app. right. left. reflexivity. }
        unfold Rect.bottom, Rect.top. cbn. lia.
    + apply Qltb_false in E1.
      split.
      * split.
        -- intros H. exfalso.
           destruct (Qltb (Player.vel_y p) 0); cbn in H; discriminate.
        -- intros [Hpos _]. exfalso. lra.
      * intros H. exfalso.
        destruct (Qltb (Player.vel_y p) 0); cbn in H; discriminate.
  - cbn. split.
    + split; [discriminate | intros [_ H]; contradiction].
    + discriminate.
Qed.

Lemma on_ground_means_landed_witness :
  Player.vel_y (Player.move_and_collide [low_step; high_step] falling_player)
    = 0%Q /\
  exists plat,
    first_hit (moved_y (Player.move_horizontal [low_step; high_step]
                                               falling_player))
              [low_step; high_step] = Some plat /\
    In plat [low_step; high_step] /\
    Rect.bottom
      (Player.rect (Player.move_and_collide [low_step; high_step] falling_player))
    = Rect.top (Platform.rect plat).
Proof.
  apply (on_ground_means_landed [low_step; high_step] falling_player).
  reflexivity.
Defined.

(** ** Enemy steps *)

(** Every tick moves an enemy horizontally by exactly its speed: either
    one step onwards, or, when that step would touch a patrol bound, one
    step back with the velocity negated.  Speed, patrol bounds and size
    never change. *)
Theorem enemy_step :
  forall (platforms : list Platform.t) (e : Enemy.t),
    let e' := Enemy.update platforms e in
    let x1 := Rect.x (Enemy.rect e) + Enemy.vel_x e in
    Enemy.patrol_min e' = Enemy.patrol_min e /\
    Enemy.patrol_max e' = Enemy.patrol_max e /\
    Rect.w (Enemy.rect e') = Rect.w (Enemy.rect e) /\
    Rect.h (Enemy.rect e') = Rect.h (Enemy.rect e) /\
    Z.abs (Enemy.vel_x e') = Z.abs (Enemy.vel_x e) /\
    Z.abs (Rect.x (Enemy.rect e') - Rect.x (Enemy.rect e))
      = Z.abs (Enemy.vel_x e) /\
    (x1 <= Enemy.patrol_min e \/
     Enemy.patrol_max e <= x1 + Rect.w (Enemy.rect e) ->
     Enemy.vel_x e' = - Enemy.vel_x e /\
     Rect.x (Enemy.rect e') = Rect.x (Enemy.rect e) - Enemy.vel_x e) /\
    (Enemy.patrol_min e < x1 /\
     x1 + Rect.w (Enemy.rect e) < Enemy.patrol_max e ->
     Enemy.vel_x e' = Enemy.vel_x e /\ Rect.x (Enemy.rect e') = x1).
Proof.
  intros platforms [[x y w h] v mn mx].
  unfold Enemy.update, Rect.left, Rect.right. cbn -[Z.leb Z.mul Z.add Z.sub].
  destruct (Z.leb_spec (x + v) mn); destruct (Z.leb_spec mx (x + v + w));
    cbn -[Z.leb Z.mul Z.add Z.sub];
    destruct (spritecollideany _ _); cbn -[Z.leb Z.mul Z.add Z.sub];
    repeat split; lia.
Qed.

Lemma enemy_step_witness :
  Enemy.vel_x (Enemy.update [] (Enemy.mk (Rect.mk 222 518 36 42) 2 50 260)) = -2 /\
  Rect.x (Enemy.rect
            (Enemy.update [] (Enemy.mk (Rect.mk 222 518 36 42) 2 50 260)))
    = 222 - 2.
Proof.
  apply (enemy_step [] (Enemy.mk (Rect.mk 222 518 36 42) 2 50 260)).
  right. simpl. lia.
Defined.

(** An enemy never moves down: the one-pixel probe is either undone, or
    replaced by a snap onto the top of the first platform the probe hit,
    which is not below where the enemy stood. *)
Theorem enemy_never_sinks :
  forall (platforms : list Platform.t) (e : Enemy.t),
    Rect.positive (Enemy.rect e) ->
    Forall (fun q => Rect.positive (Platform.rect q)) platforms ->
    let e' := Enemy.update platforms e in
    Rect.y (Enemy.rect e') <= Rect.y (Enemy.rect e) /\
    (Rect.y (Enemy.rect e') = Rect.y (Enemy.rect e) \/
     exists plat,
       In plat platforms /\
       Rect.bottom (Enemy.rect e') = Rect.top (Platform.rect plat)).
Proof.
  intros platforms [[x y w h] v mn mx] [Hw Hh] Hpl.
  unfold Enemy.update, spritecollideany, Rect.left, Rect.right.
  cbn -[Z.leb Z.mul Z.add Z.sub] in *.
  rewrite Forall_forall in Hpl.
  destruct (Z.leb_spec (x + v) mn); destruct (Z.leb_spec mx (x + v + w));
    cbn -[Z.leb Z.mul Z.add Z.sub];
    (destruct (find _ (map Platform.rect platforms)) as [hit|] eqn:E;
     [ apply find_some in E; destruct E as [Hin Hc];
       apply in_map_iff in Hin; destruct Hin as (plat & <- & Hin);
       destruct (Hpl plat Hin) as [Pw Ph];
       apply colliderect_spec in Hc; cbn; try lia;
       unfold Rect.left, Rect.right, Rect.top, Rect.bottom in *; cbn in *;
       (split; [lia |]); right; exists plat; (split; [exact Hin | lia])
     | cbn; split; [lia | left; lia] ]).
Qed.

Lemma enemy_never_sinks_witness :
  Rect.y (Enemy.rect (Enemy.update (platforms last_coin_world)
                                   (Enemy.init 110 500 50 260)))
    <= Rect.y (Enemy.rect (Enemy.init 110 500 50 260)).
Proof.
  apply (enemy_never_sinks (platforms last_coin_world)
                           (Enemy.init 110 500 50 260)).
  - unfold Rect.positive. simpl. unfold Enemy.width, Enemy.height. lia.
  - simpl. repeat constructor; simpl; lia.
Defined.

(** ** Coins *)

Lemma drift_bounds n t : - Z.of_nat n <= drift n t <= 0.
Proof.
  induction n as [|n IH]; [simpl; lia |].
  cbn [drift].
  destruct (bob_step_nonpositive (t + Z.of_nat (S n))) as [-> | ->]; lia.
Qed.

(** A coin never moves sideways, never changes size and never moves down:
    after [n] ticks it is between 0 and [n] pixels above where it was, and
    its timer has advanced by [n]. *)
Theorem coin_only_moves_up :
  forall (n : nat) (c : Coin.t),
    Rect.x (Coin.rect (coin_ticks n c)) = Rect.x (Coin.rect c) /\
    Rect.w (Coin.rect (coin_ticks n c)) = Rect.w (Coin.rect c) /\
    Rect.h (Coin.rect (coin_ticks n c)) = Rect.h (Coin.rect c) /\
    Rect.y (Coin.rect c) - Z.of_nat n <= Rect.y (Coin.rect (coin_ticks n c))
      <= Rect.y (Coin.rect c) /\
    Coin._bob_timer (coin_ticks n c) = Coin._bob_timer c + Z.of_nat n.
Proof.
  intros n c. rewrite coin_ticks_spec.
  pose proof (drift_bounds n (Coin._bob_timer c)).
  cbn. repeat split; lia.
Qed.

(** ** The event loop and the phases *)

Lemma handle_events_none rnd evs : forall w,
  handle_events rnd evs w = None <-> existsb is_quit evs = true.
Proof.
  induction evs as [|ev evs IH]; intros w; simpl.
  - split; discriminate.
  - destruct ev as [|k|]; simpl.
    + split; reflexivity.
    + destruct k; simpl; try apply IH. split; reflexivity.
    + apply IH.
Qed.

Lemma handle_events_some rnd evs : forall w,
  existsb is_quit evs = false ->
  handle_events rnd evs w =
  Some (if restartable (state w) && existsb is_confirm evs
        then restart rnd else w).
Proof.
  induction evs as [|ev evs IH]; intros w Hq; simpl in *.
  - rewrite andb_false_r. reflexivity.
  - destruct ev as [|k|]; simpl in *; try discriminate.
    + destruct k; simpl in *; try discriminate; try (apply IH; assumption).
      destruct (restartable (state w)) eqn:R;
        rewrite IH by assumption; [reflexivity |].
      rewrite R. reflexivity.
    + apply IH; assumption.
Qed.

(** An iteration of the main loop leaves the process exactly when the
    event queue holds a QUIT event or an ESCAPE key-down, wherever in the
    queue and whatever the phase. *)
Theorem frame_exits_iff_quit :
  forall (f : Frame) (w : World),
    frame f w = None <-> existsb is_quit (events f) = true.
Proof.
  intros f w. unfold frame.
  rewrite <- (handle_events_none (rnd f) (events f) w).
  destruct (handle_events (rnd f) (events f) w); split;
    congruence.
Qed.

Lemma frame_phase_cases :
  forall (f : Frame) (w : World),
    existsb is_quit (events f) = false ->
    (state w = playing ->
     frame f w = Some (update_playing (keys f) w)) /\
    (state w <> playing -> existsb is_confirm (events f) = false ->
     frame f w = Some w) /\
    (state w <> playing -> existsb is_confirm (events f) = true ->
     frame f w = Some (update_playing (keys f) (restart (rnd f)))).
Proof.
  intros f w Hq. unfold frame.
  rewrite (handle_events_some _ _ w Hq).
  split; [| split].
  - intros Hs. rewrite Hs. cbn [restartable andb]. rewrite Hs. reflexivity.
  - intros Hs Hc. rewrite Hc, andb_false_r.
    destruct (state w); congruence.
  - intros Hs Hc. rewrite Hc, andb_true_r.
    destruct (state w); try congruence; reflexivity.
Qed.

(** What an iteration without a quit event does, phase by phase: while
    playing it runs one update tick and ignores RETURN; in any other phase
    it changes nothing unless RETURN was pressed, in which case the level
    is rebuilt and the first tick of the new run is played at once. *)
Theorem frame_by_phase :
  forall (f : Frame) (w : World),
    existsb is_quit (events f) = false ->
    (state w = playing ->
     frame f w = Some (update_playing (keys f) w)) /\
    (state w <> playing -> existsb is_confirm (events f) = false ->
     frame f w = Some w) /\
    (state w <> playing -> existsb is_confirm (events f) = true ->
     frame f w = Some (update_playing (keys f) (restart (rnd f)))).
Proof.
  intros f w Hq. unfold frame.
  rewrite (handle_events_some _ _ w Hq).
  split; [| split].
  - intros Hs. rewrite Hs. cbn [restartable andb]. rewrite Hs. reflexivity.
  - intros Hs Hc. rewrite Hc, andb_false_r.
    destruct (state w); congruence.
  - intros Hs Hc. rewrite Hc, andb_true_r.
    destruct (state w); try congruence; reflexivity.
Qed.

Lemma frame_by_phase_witness :
  frame idle_frame last_coin_world
    = Some (update_playing (keys idle_frame) last_coin_world) /\
  frame idle_frame (main_init (fun _ => 0)) = Some (main_init (fun _ => 0)) /\
  frame confirm_frame (main_init (fun _ => 0))
    = Some (update_playing (keys confirm_frame) (restart (rnd confirm_frame))).
Proof.
  split; [| split].
  - apply (frame_by_phase idle_frame last_coin_world); reflexivity.
  - apply (frame_by_phase idle_frame (main_init (fun _ => 0)));
      first [reflexivity | discriminate].
  - apply (frame_by_phase confirm_frame (main_init (fun _ => 0)));
      first [reflexivity | discriminate].
Defined.

(** The phase after a playing tick: game over when the player is dead,
    else win when no coin is left, else still playing. *)
Lemma update_playing_state keys w :
  state w = playing ->
  state (update_playing keys w) =
  if Player.is_dead (player (update_playing keys w)) then game_over
  else if len (coins (update_playing keys w)) =? 0 then win else playing.
Proof.
  intros Hs.
  destruct (update_playing_spec keys w) as (_ & _ & _ & _ & _ & H).
  cbn zeta in H. rewrite H, Hs. reflexivity.
Qed.

Lemma len_zero_iff_nil {A : Type} (l : list A) : len l = 0 <-> l = [].
Proof.
  unfold len. destruct l; simpl; split; intros H;
    try reflexivity; try discriminate; lia.
Qed.

Lemma phase_world_cases :
  forall w : World,
    reachable w ->
    match state w with
    | playing => 0 < Player.health (player w) /\ coins w <> []
    | win => 0 < Player.health (player w) /\ coins w = []
    | game_over => Player.health (player w) = 0
    | start => exists rnd0, w = main_init rnd0
    end.
Proof.
  induction 1 as [rnd0 | f w w' Hw IH H].
  - cbn. exists rnd0. reflexivity.
  - pose proof (reachable_invariant _ (reachable_frame f w w' Hw H)) as Hinv.
    destruct Hinv as ((_ & Hh) & _).
    unfold frame in H.
    destruct (handle_events (rnd f) (events f) w) as [w1|] eqn:E;
      [| discriminate].
    destruct (state w1) eqn:Hs1.
    + (* start: nothing ran *)
      injection H as <-.
      destruct (handle_events_cases _ _ _ _ E) as [[_ ->] | [_ ->]];
        [| discriminate Hs1].
      rewrite Hs1 in *. exact IH.
    + (* playing: one tick *)
      injection H as <-.
      rewrite (update_playing_state (keys f) w1 Hs1).
      unfold Player.is_dead in *.
      destruct (Z.leb_spec (Player.health (player (update_playing (keys f) w1))) 0).
      * lia.
      * destruct (Z.eqb_spec (len (coins (update_playing (keys f) w1))) 0)
          as [Hz | Hz].
        -- split; [assumption | apply len_zero_iff_nil; assumption].
        -- split; [assumption |]. intros Hnil. apply Hz.
           apply len_zero_iff_nil. assumption.
    + injection H as <-.
      destruct (handle_events_cases _ _ _ _ E) as [[_ ->] | [_ ->]];
        [| discriminate Hs1].
      rewrite Hs1 in *. exact IH.
    + injection H as <-.
      destruct (handle_events_cases _ _ _ _ E) as [[_ ->] | [_ ->]];
        [| discriminate Hs1].
      rewrite Hs1 in *. exact IH.
Qed.

(** In every world the main loop reaches, the phase matches the world:
    while playing the player is alive and a coin is left; in phase win no
    coin is left and the player is alive; in phase game over the health is
    exactly 0; and the start phase only ever shows the level as built. *)
Theorem phase_matches_world :
  forall w : World,
    reachable w ->
    match state w with
    | playing => 0 < Player.health (player w) /\ coins w <> []
    | win => 0 < Player.health (player w) /\ coins w = []
    | game_over => Player.health (player w) = 0
    | start => exists rnd0, w = main_init rnd0
    end.
Proof.
  induction 1 as [rnd0 | f w w' Hw IH H].
  - cbn. exists rnd0. reflexivity.
  - pose proof (reachable_invariant _ (reachable_frame f w w' Hw H)) as Hinv.
    destruct Hinv as ((_ & Hh) & _).
    unfold frame in H.
    destruct (handle_events (rnd f) (events f) w) as [w1|] eqn:E;
      [| discriminate].
    destruct (state w1) eqn:Hs1.
    + (* start: nothing ran *)
      injection H as <-.
      destruct (handle_events_cases _ _ _ _ E) as [[_ ->] | [_ ->]];
        [| discriminate Hs1].
      rewrite Hs1 in *. exact IH.
    + (* playing: one tick *)
      injection H as <-.
      rewrite (update_playing_state (keys f) w1 Hs1).
      unfold Player.is_dead in *.
      destruct (Z.leb_spec (Player.health (player (update_playing (keys f) w1))) 0).
      * lia.
      * destruct (Z.eqb_spec (len (coins (update_playing (keys f) w1))) 0)
          as [Hz | Hz].
        -- split; [assumption | apply len_zero_iff_nil; assumption].
        -- split; [assumption |]. intros Hnil. apply Hz.
           apply len_zero_iff_nil. assumption.
    + injection H as <-.
      destruct (handle_events_cases _ _ _ _ E) as [[_ ->] | [_ ->]];
        [| discriminate Hs1].
      rewrite Hs1 in *. exact IH.
    + injection H as <-.
      destruct (handle_events_cases _ _ _ _ E) as [[_ ->] | [_ ->]];
        [| discriminate Hs1].
      rewrite Hs1 in *. exact IH.
Qed.

Lemma phase_matches_world_witness :
  0 < Player.health (player first_playing_world) /\
  coins first_playing_world <> [].
Proof.
  apply (phase_matches_world first_playing_world).
  apply (reachable_frame confirm_frame (main_init (fun _ => 0))).
  - apply reachable_init.
  - reflexivity.
Defined.

(** ** Coins and terrain in the loop *)

Lemma update_playing_coins keys w :
  coins (update_playing keys w) =
  filter (fun c =>
            negb (Rect.colliderect
                    (Player.rect (Player.update keys (platforms w) (player w)))
                    (Coin.rect c)))
         (map Coin.update (coins w)).
Proof.
  unfold update_playing, spritecollide_kill.
  rewrite partition_as_filter. reflexivity.
Qed.

Lemma update_playing_player keys w :
  player (update_playing keys w) =
  let p1 := Player.update keys (platforms w) (player w) in
  let collected :=
    filter (fun c => Rect.colliderect (Player.rect p1) (Coin.rect c))
           (map Coin.update (coins w)) in
  fall_off_screen
    (enemy_contact (map (Enemy.update (platforms w)) (enemies w))
       (Player.set_score (Player.score p1 + len collected * 10) p1)).
Proof.
  unfold update_playing, spritecollide_kill.
  rewrite partition_as_filter. reflexivity.
Qed.

(** A playing tick removes exactly the coins whose rectangle, after the
    coin's own tick, overlaps the player's rectangle after the player's
    update; all other coins stay, ticked, in their order.  So the number
    of coins never grows in an iteration that does not rebuild the
    level. *)
Theorem coins_removed_iff_overlap :
  (forall (keys : Keys) (w : World),
      coins (update_playing keys w) =
      filter (fun c =>
                negb (Rect.colliderect
                        (Player.rect
                           (Player.update keys (platforms w) (player w)))
                        (Coin.rect c)))
             (map Coin.update (coins w))) /\
  (forall (f : Frame) (w w' : World),
      frame f w = Some w' ->
      rebuilds (events f) (state w) = false ->
      len (coins w') <= len (coins w)).
Proof.
  split; [exact update_playing_coins |].
  intros f w w' Hf Hr. unfold frame in Hf.
  destruct (handle_events (rnd f) (events f) w) as [w1|] eqn:E;
    [| discriminate].
  destruct (handle_events_cases _ _ _ _ E) as [[_ ->] | [Hr' _]];
    [| congruence].
  destruct (update_playing_spec (keys f) w) as (_ & _ & Hl & _).
  destruct (state w); injection Hf as <-; lia.
Qed.

Lemma coins_removed_iff_overlap_witness :
  len (coins (update_playing no_keys last_coin_world))
    <= len (coins last_coin_world).
Proof.
  destruct coins_removed_iff_overlap as [_ H].
  apply (H idle_frame last_coin_world); reflexivity.
Defined.

(** Within a run and across rebuilds the terrain is always the eleven
    platforms of [build_level], and the enemies are always the same five,
    in the same order, with the patrol bounds they were built with. *)
Theorem level_layout_is_static :
  forall w : World,
    reachable w ->
    platforms w = platforms (main_init (fun _ => 0)) /\
    map (fun e => (Enemy.patrol_min e, Enemy.patrol_max e)) (enemies w)
      = level_patrols.
Proof.
  induction 1 as [rnd0 | f w w' _ IH H].
  - split; reflexivity.
  - unfold frame in H.
    destruct (handle_events (rnd f) (events f) w) as [w1|] eqn:E;
      [| discriminate].
    assert (H1 : platforms w1 = platforms (main_init (fun _ => 0)) /\
                 map (fun e => (Enemy.patrol_min e, Enemy.patrol_max e))
                     (enemies w1) = level_patrols).
    { destruct (handle_events_cases _ _ _ _ E) as [[_ ->] | [_ ->]];
        [exact IH | split; reflexivity]. }
    assert (H2 : platforms (update_playing (keys f) w1)
                   = platforms (main_init (fun _ => 0)) /\
                 map (fun e => (Enemy.patrol_min e, Enemy.patrol_max e))
                     (enemies (update_playing (keys f) w1)) = level_patrols).
    { destruct H1 as [Hp He]. split.
      - rewrite <- Hp. unfold update_playing.
        destruct (spritecollide_kill _ _). reflexivity.
      - rewrite update_playing_enemies, map_map, <- He.
        apply map_ext. intros e.
        destruct (enemy_update_bounds (platforms w1) e) as [-> ->].
        reflexivity. }
    destruct (state w1); injection H as <-; assumption.
Qed.

Lemma level_layout_is_static_witness :
  platforms first_playing_world = platforms (main_init (fun _ => 0)).
Proof.
  apply (level_layout_is_static first_playing_world).
  apply (reachable_frame confirm_frame (main_init (fun _ => 0))).
  - apply reachable_init.
  - reflexivity.
Defined.

(** ** Starting a run *)

(** [Player.update] reads the keyboard only through the three conditions
    of [handle_input]. *)
Lemma update_keys_ext keys keys' platforms p :
  Player.left_held keys = Player.left_held keys' ->
  Player.right_held keys = Player.right_held keys' ->
  Player.jump_held keys = Player.jump_held keys' ->
  Player.update keys platforms p = Player.update keys' platforms p.
Proof.
  intros Hl Hr Hj.
  unfold Player.update, Player.handle_input, Player.handle_horizontal.
  rewrite Hl, Hr, Hj. reflexivity.
Qed.

Lemma update_keys_of keys platforms p :
  Player.update keys platforms p =
  Player.update (keys_of (Player.left_held keys) (Player.right_held keys)
                         (Player.jump_held keys)) platforms p.
Proof.
  apply update_keys_ext;
    unfold Player.left_held, Player.right_held, Player.jump_held, keys_of;
    rewrite orb_false_r; reflexivity.
Qed.

(** The first update of a freshly built player, whatever is held: it moves
    at most 4 pixels sideways and does not leave its spawn height. *)
Lemma first_update keys :
  let p1 := Player.update keys (platforms (main_init (fun _ => 0)))
                          (Player.init 60 490) in
  56 <= Rect.x (Player.rect p1) <= 64 /\
  Rect.y (Player.rect p1) = 490 /\
  Rect.w (Player.rect p1) = 32 /\ Rect.h (Player.rect p1) = 48 /\
  Player.health p1 = 100 /\ Player.score p1 = 0 /\
  Player.invincible_timer p1 = 0.
Proof.
  cbn zeta. rewrite update_keys_of.
  destruct (Player.left_held keys), (Player.right_held keys),
           (Player.jump_held keys);
    vm_compute; repeat split; discriminate.
Qed.

Lemma x_disjoint_no_collision a b :
  Rect.positive a -> Rect.positive b ->
  Rect.right a <= Rect.left b \/ Rect.right b <= Rect.left a ->
  Rect.colliderect a b = false.
Proof.
  intros [Haw Hah] [Hbw Hbh] H. apply not_true_is_false.
  rewrite (colliderect_spec a b Haw Hah Hbw Hbh). lia.
Qed.

Lemma filter_none {A : Type} (f : A -> bool) (l : list A) :
  Forall (fun x => f x = false) l ->
  filter f l = [] /\ filter (fun x => negb (f x)) l = l.
Proof.
  induction 1 as [|x l Hx _ [IH1 IH2]]; simpl; [auto |].
  rewrite Hx. cbn. rewrite IH1, IH2. auto.
Qed.

Lemma enemy_contact_miss enemies p :
  spritecollideany (Player.rect p) (map Enemy.rect enemies) = None ->
  enemy_contact enemies p = p.
Proof. unfold enemy_contact. intros ->. reflexivity. Qed.

Lemma fall_off_screen_miss p :
  Rect.top (Player.rect p) <= SCREEN_H + 50 -> fall_off_screen p = p.
Proof.
  unfold fall_off_screen. intros H.
  destruct (Z.ltb_spec (SCREEN_H + 50) (Rect.top (Player.rect p)));
    [lia | reflexivity].
Qed.

(** No coin of a fresh level is within reach of the spawn point. *)
Lemma fresh_coins_out_of_reach rnd0 r :
  Rect.positive r -> 56 <= Rect.x r -> Rect.right r <= 96 ->
  Forall (fun c => Rect.colliderect r (Coin.rect c) = false)
         (map Coin.update (coins (restart rnd0))).
Proof.
  intros Hr Hx1 Hx2. apply Forall_map.
  assert (H : Forall (fun c => Rect.positive (Coin.rect c) /\
                               (Rect.right (Coin.rect c) <= 56 \/
                                96 <= Rect.left (Coin.rect c)))
                     (coins (restart rnd0))).
  { cbn. unfold Rect.positive, Rect.right, Rect.left.
    repeat constructor; cbn; lia. }
  revert H. apply Forall_impl. intros c [[Hw Hh] Hc].
  rewrite coin_update_spec.
  apply x_disjoint_no_collision; [exact Hr | |];
    unfold Rect.positive, Rect.right, Rect.left in *; cbn; lia.
Qed.

(** Pressing RETURN outside a run starts a fresh one: after that
    iteration, which already plays the first tick whatever keys are held,
    the phase is playing, the player has full health, no score and no
    invincibility, and all 13 coins are there. *)
Theorem restart_gives_fresh_run :
  forall (f : Frame) (w w' : World),
    state w <> playing ->
    existsb is_quit (events f) = false ->
    existsb is_confirm (events f) = true ->
    frame f w = Some w' ->
    state w' = playing /\
    Player.health (player w') = 100 /\
    Player.score (player w') = 0 /\
    Player.invincible_timer (player w') = 0 /\
    len (coins w') = 13 /\
    total_coins w' = 13.
Proof.
  intros f w w' Hs Hq Hc Hf.
  destruct (frame_phase_cases f w Hq) as (_ & _ & Hre).
  rewrite (Hre Hs Hc) in Hf. injection Hf as <-.
  set (w0 := restart (rnd f)).
  pose proof (first_update (keys f)) as Hp1. cbn zeta in Hp1.
  change (platforms (main_init (fun _ => 0))) with (platforms w0) in Hp1.
  change (Player.init 60 490) with (player w0) in Hp1.
  set (p1 := Player.update (keys f) (platforms w0) (player w0)) in *.
  destruct Hp1 as (Hx & Hy & Hw & Hh & Hhp & Hsc & Hit).
  assert (Hcoins : Forall (fun c => Rect.colliderect (Player.rect p1)
                                                     (Coin.rect c) = false)
                          (map Coin.update (coins w0))).
  { apply fresh_coins_out_of_reach;
      unfold Rect.positive, Rect.right; lia. }
  destruct (filter_none _ _ Hcoins) as [Hnone Hall].
  assert (Hcs : coins (update_playing (keys f) w0)
                = map Coin.update (coins w0)).
  { rewrite update_playing_coins. exact Hall. }
  assert (Hpl : player (update_playing (keys f) w0)
                = Player.set_score 0 p1).
  { rewrite update_playing_player. cbn zeta. fold p1. rewrite Hnone, Hsc.
    change (0 + len [] * 10) with 0.
    rewrite fall_off_screen_miss.
    - apply enemy_contact_miss.
      change (Player.rect (Player.set_score 0 p1)) with (Player.rect p1).
      destruct (Player.rect p1) as [x y rw rh]. cbn in Hx, Hy, Hw, Hh.
      subst y rw rh.
      assert (Hcases : x = 56 \/ x = 57 \/ x = 58 \/ x = 59 \/ x = 60 \/
                       x = 61 \/ x = 62 \/ x = 63 \/ x = 64) by lia.
      repeat (destruct Hcases as [-> | Hcases]; [vm_compute; reflexivity |]).
      subst x. vm_compute. reflexivity.
    - rewrite enemy_contact_miss.
      + change (Rect.top (Player.rect (Player.set_score 0 p1)))
          with (Rect.y (Player.rect p1)).
        rewrite Hy. unfold SCREEN_H. lia.
      + change (Player.rect (Player.set_score 0 p1)) with (Player.rect p1).
        destruct (Player.rect p1) as [x y rw rh]. cbn in Hx, Hy, Hw, Hh.
        subst y rw rh.
        assert (Hcases : x = 56 \/ x = 57 \/ x = 58 \/ x = 59 \/ x = 60 \/
                         x = 61 \/ x = 62 \/ x = 63 \/ x = 64) by lia.
        repeat (destruct Hcases as [-> | Hcases]; [vm_compute; reflexivity |]).
        subst x. vm_compute. reflexivity. }
  assert (Hlen : len (coins (update_playing (keys f) w0)) = 13).
  { rewrite Hcs, len_map. reflexivity. }
  assert (Hst : state (update_playing (keys f) w0) = playing).
  { rewrite update_playing_state by reflexivity.
    rewrite Hlen, Hpl. unfold Player.is_dead. cbn [Player.health Player.set_score].
    rewrite Hhp. reflexivity. }
  rewrite Hpl. cbn [Player.health Player.score Player.invincible_timer
                    Player.set_score].
  repeat split; try assumption.
  unfold update_playing. destruct (spritecollide_kill _ _). reflexivity.
Qed.

Lemma restart_gives_fresh_run_witness :
  state first_playing_world = playing /\
  Player.health (player first_playing_world) = 100 /\
  Player.score (player first_playing_world) = 0 /\
  Player.invincible_timer (player first_playing_world) = 0 /\
  len (coins first_playing_world) = 13 /\
  total_coins first_playing_world = 13.
Proof.
  apply (restart_gives_fresh_run confirm_frame (main_init (fun _ => 0))
                                 first_playing_world);
    first [reflexivity | discriminate].
Defined.

(** ** The player cannot leave the level *)

Lemma int_of_float_le (v : Q) (n : Z) :
  (v <= inject_Z n)%Q -> int_of_float v <= n.
Proof.
  destruct v as [a d]. unfold Qle, int_of_float, inject_Z. cbn.
  intros H. apply Z.quot_le_upper_bound; lia.
Qed.

Lemma int_of_float_ge (v : Q) (n : Z) :
  (inject_Z n <= v)%Q -> n <= int_of_float v.
Proof.
  destruct v as [a d]. unfold Qle, int_of_float, inject_Z. cbn.
  intros H. apply Z.quot_le_lower_bound; lia.
Qed.

(** [int] follows the two sign tests of the collision loops. *)
Lemma int_of_float_sign (v : Q) :
  (Qltb 0 v = true -> 0 <= int_of_float v) /\
  (Qltb v 0 = true -> int_of_float v <= 0) /\
  (Qltb 0 v = false -> Qltb v 0 = false -> int_of_float v = 0).
Proof.
  split; [| split].
  - intros H. apply Qltb_true in H.
    apply (int_of_float_ge v 0). apply Qlt_le_weak. exact H.
  - intros H. apply Qltb_true in H.
    apply (int_of_float_le v 0). apply Qlt_le_weak. exact H.
  - intros H1 H2. apply Qltb_false in H1. apply Qltb_false in H2.
    pose proof (int_of_float_le v 0 H1). pose proof (int_of_float_ge v 0 H2).
    lia.
Qed.

Lemma collide_iff x y w h px py pw ph :
  0 < w -> 0 < h -> 0 < pw -> 0 < ph ->
  (Rect.colliderect (Rect.mk x y w h) (Rect.mk px py pw ph) = true <->
   x < px + pw /\ y < py + ph /\ px < x + w /\ py < y + h).
Proof.
  intros Hw Hh Hpw Hph.
  rewrite (colliderect_spec (Rect.mk x y w h) (Rect.mk px py pw ph)
             Hw Hh Hpw Hph).
  unfold Rect.left, Rect.right, Rect.top, Rect.bottom. cbn. tauto.
Qed.

Lemma collide_false_iff x y w h px py pw ph :
  0 < w -> 0 < h -> 0 < pw -> 0 < ph ->
  (Rect.colliderect (Rect.mk x y w h) (Rect.mk px py pw ph) = false <->
   ~ (x < px + pw /\ y < py + ph /\ px < x + w /\ py < y + h)).
Proof.
  intros Hw Hh Hpw Hph.
  rewrite <- (collide_iff x y w h px py pw ph Hw Hh Hpw Hph).
  symmetry. apply not_true_iff_false.
Qed.

(** Turn every collision test between explicit rectangles into linear
    arithmetic. *)
Ltac geometry :=
  unfold Platform.init, Rect.of_topleft,
         Rect.left, Rect.right, Rect.top, Rect.bottom in *;
  cbn [Platform.rect Rect.x Rect.y Rect.w Rect.h] in *;
  repeat match goal with
         | H : Rect.colliderect (Rect.mk _ _ _ _) (Rect.mk _ _ _ _) = true |- _ =>
             apply collide_iff in H; [| lia | lia | lia | lia]
         | H : Rect.colliderect (Rect.mk _ _ _ _) (Rect.mk _ _ _ _) = false |- _ =>
             apply collide_false_iff in H; [| lia | lia | lia | lia]
         end;
  intros; repeat split;
  try match goal with
      | |- Rect.colliderect (Rect.mk _ _ _ _) (Rect.mk _ _ _ _) = false =>
          apply collide_false_iff; [lia | lia | lia | lia |]
      end;
  try lia.

(** One case per platform of the level. *)
Ltac each_platform H :=
  unfold level_platforms in H; cbn in H;
  repeat (destruct H as [H | H]; [subst |]); [.. | contradiction].

(** Horizontal resolution against a platform of the level keeps the
    player on screen and out of the left ledge. *)
Lemma horizontal_snap_ok x y dx plat :
  In plat level_platforms ->
  Rect.colliderect (Rect.mk (x + dx) y 32 48) (Platform.rect plat) = true ->
  0 <= x <= 768 -> y + 48 <= 560 -> -4 <= dx <= 4 ->
  Rect.colliderect (Rect.mk x y 32 48) (Platform.rect left_ledge) = false ->
  (0 <= dx ->
   -32 < Rect.left (Platform.rect plat) - 32 < 800 /\
   Rect.colliderect (Rect.mk (Rect.left (Platform.rect plat) - 32) y 32 48)
                    (Platform.rect left_ledge) = false) /\
  (dx <= 0 ->
   -32 < Rect.right (Platform.rect plat) < 800 /\
   Rect.colliderect (Rect.mk (Rect.right (Platform.rect plat)) y 32 48)
                    (Platform.rect left_ledge) = false).
Proof.
  intros Hin Hc Hx Hy Hdx Hl.
  unfold left_ledge in *.
  each_platform Hin; geometry.
Qed.

(** Vertical resolution against a platform of the level leaves the
    player above the ground strip and out of the left ledge. *)
Lemma vertical_snap_ok x y dy plat :
  In plat level_platforms ->
  Rect.colliderect (Rect.mk x (y + dy) 32 48) (Platform.rect plat) = true ->
  -32 < x < 800 -> y + 48 <= 560 -> dy <= 20 ->
  (0 <= dy ->
   Rect.top (Platform.rect plat) - 48 + 48 <= 560 /\
   Rect.colliderect (Rect.mk x (Rect.top (Platform.rect plat) - 48) 32 48)
                    (Platform.rect left_ledge) = false) /\
  (dy <= 0 ->
   Rect.bottom (Platform.rect plat) + 48 <= 560 /\
   Rect.colliderect (Rect.mk x (Rect.bottom (Platform.rect plat)) 32 48)
                    (Platform.rect left_ledge) = false).
Proof.
  intros Hin Hc Hx Hy Hdy.
  unfold left_ledge in *.
  each_platform Hin; geometry.
Qed.

(** A player that is over the ground strip and moves down without hitting
    it is still above it. *)
Lemma vertical_miss_ok x y dy :
  Rect.colliderect (Rect.mk x (y + dy) 32 48) (Platform.rect ground_strip)
    = false ->
  -32 < x < 800 -> y + 48 <= 560 -> dy <= 20 ->
  y + dy + 48 <= 560.
Proof.
  intros Hc Hx Hy Hdy. unfold ground_strip in *. geometry.
Qed.

Lemma clamp_ok x y :
  -32 < x < 800 ->
  Rect.colliderect (Rect.mk x y 32 48) (Platform.rect left_ledge) = false ->
  forall x', x' = (if x <? 0 then 0 else if 800 <? x + 32 then 768 else x) ->
  0 <= x' <= 768 /\
  Rect.colliderect (Rect.mk x' y 32 48) (Platform.rect left_ledge) = false.
Proof.
  intros Hx Hc x' ->. unfold left_ledge in *.
  destruct (Z.ltb_spec x 0); [| destruct (Z.ltb_spec 800 (x + 32))];
    geometry.
Qed.

Lemma update_rect keys platforms p :
  Player.rect (Player.update keys platforms p) =
  let r := Player.rect
             (Player.move_and_collide platforms
                (Player.apply_gravity (Player.handle_input keys p))) in
  let r1 := if Rect.left r <? 0 then Rect.set_left 0 r else r in
  if SCREEN_W <? Rect.right r1 then Rect.set_right SCREEN_W r1 else r1.
Proof.
  unfold Player.update. cbn zeta.
  set (q := Player.move_and_collide platforms _).
  clearbody q. destruct q as [[x y w h] vx vy g mh hp sc it fr wf].
  unfold Rect.left, Rect.right, SCREEN_W. cbn -[Z.ltb Z.add Z.sub].
  destruct (0 <? it); cbn -[Z.ltb Z.add Z.sub];
    destruct (x <? 0); cbn -[Z.ltb Z.add Z.sub];
    match goal with
    | |- context [if ?c then _ else _] => destruct c
    end; reflexivity.
Qed.

Lemma move_horizontal_miss platforms p :
  first_hit (moved_x p) platforms = None ->
  Player.rect (Player.move_horizontal platforms p) = moved_x p.
Proof.
  intros H. unfold Player.move_horizontal. cbn zeta. fold (moved_x p).
  rewrite (fold_no_collision _ platforms _ collide_horizontal_miss).
  - reflexivity.
  - exact (first_hit_none _ _ H).
Qed.

Lemma first_hit_in r platforms plat :
  first_hit r platforms = Some plat ->
  In plat platforms /\ Rect.colliderect r (Platform.rect plat) = true.
Proof. unfold first_hit. apply find_some. Qed.

Lemma ledge_in_level : In left_ledge level_platforms.
Proof. unfold level_platforms, left_ledge. cbn. tauto. Qed.

Lemma ground_in_level : In ground_strip level_platforms.
Proof. unfold level_platforms, ground_strip. cbn. tauto. Qed.

(** On the platforms of the level, one update keeps the player on the
    level. *)
Lemma update_keeps_on_level keys p :
  on_level p -> on_level (Player.update keys level_platforms p).
Proof.
  intros (Hw & Hh & Hl & Hr & Hb & Hv & Hled).
  pose proof (update_rect keys level_platforms p) as Hrect.
  destruct (update_velocities keys level_platforms p) as [Hvx _].
  cbn zeta in Hrect, Hvx.
  destruct (handle_input_vitals keys p) as (_ & _ & R1).
  destruct (apply_gravity_vitals (Player.handle_input keys p)) as (_ & _ & R2).
  destruct (apply_gravity_vel (Player.handle_input keys p)) as (Gx & Gcap & _).
  set (q := Player.apply_gravity (Player.handle_input keys p)) in *.
  assert (Rq : Player.rect q = Player.rect p) by congruence.
  assert (Vxq : (-(4) <= Player.vel_x q <= 4)%Q).
  { rewrite Gx, handle_input_vel_x.
    unfold PLAYER_SPEED, inject_Z in *. cbn [Z.opp].
    destruct (Player.left_held keys); [lra |].
    destruct (Player.right_held keys); [lra |].
    destruct (Qltb _ _); lra. }
  destruct (Player.rect p) as [x y w h] eqn:Rp.
  unfold Player.width, Player.height, SCREEN_W, ground_strip,
         Rect.left, Rect.right, Rect.bottom, Rect.top in Hw, Hh, Hl, Hr, Hb.
  cbn in Hw, Hh, Hl, Hr, Hb. subst w h.
  (* horizontal pass *)
  set (dx := int_of_float (Player.vel_x q)).
  assert (Hdx : -4 <= dx <= 4).
  { split; [apply int_of_float_ge | apply int_of_float_le];
      unfold inject_Z; lra. }
  destruct (int_of_float_sign (Player.vel_x q)) as (Sx1 & Sx2 & Sx3).
  fold dx in Sx1, Sx2, Sx3.
  assert (Mx : moved_x q = Rect.mk (x + dx) y 32 48).
  { unfold moved_x. rewrite Rq. reflexivity. }
  set (p1 := Player.move_horizontal level_platforms q).
  assert (H1 : exists x',
             Player.rect p1 = Rect.mk x' y 32 48 /\ -32 < x' < 800 /\
             Rect.colliderect (Rect.mk x' y 32 48) (Platform.rect left_ledge)
               = false).
  { destruct (first_hit (moved_x q) level_platforms) as [plat|] eqn:E.
    - pose proof (move_horizontal_first_hit _ _ _ E) as Hp1. fold p1 in Hp1.
      destruct (first_hit_in _ _ _ E) as [Hin Hc]. rewrite Mx in Hc, Hp1.
      destruct (horizontal_snap_ok x y dx plat Hin Hc ltac:(lia) Hb Hdx Hled)
        as [Hright Hleft].
      destruct (Qltb 0 (Player.vel_x q)) eqn:E1.
      + destruct (Hright (Sx1 eq_refl)) as [B L].
        exists (Rect.left (Platform.rect plat) - 32). rewrite Hp1. auto.
      + destruct (Qltb (Player.vel_x q) 0) eqn:E2.
        * destruct (Hleft (Sx2 eq_refl)) as [B L].
          exists (Rect.right (Platform.rect plat)). rewrite Hp1. auto.
        * exists (x + dx). rewrite Hp1.
          rewrite (Sx3 eq_refl eq_refl), Z.add_0_r.
          split; [reflexivity |]. split; [lia | exact Hled].
    - exists (x + dx).
      pose proof (move_horizontal_miss _ _ E) as Hm. fold p1 in Hm.
      rewrite Hm, Mx. split; [reflexivity |]. split; [lia |].
      pose proof (first_hit_none _ _ E) as Hnone.
      rewrite Forall_forall in Hnone. rewrite Mx in Hnone.
      exact (Hnone _ ledge_in_level). }
  destruct H1 as (x' & Rp1 & Hx' & Hled1).
  (* vertical pass *)
  destruct (move_horizontal_y level_platforms q) as (_ & _ & _ & Vy1).
  fold p1 in Vy1.
  set (dy := int_of_float (Player.vel_y p1)).
  assert (Hdy : dy <= 20).
  { apply int_of_float_le. rewrite Vy1. unfold inject_Z. exact Gcap. }
  destruct (int_of_float_sign (Player.vel_y p1)) as (Sy1 & Sy2 & Sy3).
  fold dy in Sy1, Sy2, Sy3.
  assert (My : moved_y p1 = Rect.mk x' (y + dy) 32 48).
  { unfold moved_y. rewrite Rp1. reflexivity. }
  set (p2 := Player.move_and_collide level_platforms q) in *.
  assert (Hp2def : p2 = Player.move_vertical level_platforms p1) by reflexivity.
  assert (H2 : exists y',
             Player.rect p2 = Rect.mk x' y' 32 48 /\ y' + 48 <= 560 /\
             Rect.colliderect (Rect.mk x' y' 32 48) (Platform.rect left_ledge)
               = false).
  { rewrite Hp2def.
    destruct (first_hit (moved_y p1) level_platforms) as [plat|] eqn:E.
    - pose proof (move_vertical_first_hit _ _ _ E) as Hp2.
      destruct (first_hit_in _ _ _ E) as [Hin Hc]. rewrite My in Hc, Hp2.
      destruct (vertical_snap_ok x' y dy plat Hin Hc Hx' Hb Hdy)
        as [Hdown Hup].
      destruct (Qltb 0 (Player.vel_y p1)) eqn:E1.
      + destruct (Hdown (Sy1 eq_refl)) as [B L].
        exists (Rect.top (Platform.rect plat) - 48). rewrite Hp2. auto.
      + destruct (Qltb (Player.vel_y p1) 0) eqn:E2.
        * destruct (Hup (Sy2 eq_refl)) as [B L].
          exists (Rect.bottom (Platform.rect plat)). rewrite Hp2. auto.
        * exists (y + dy). rewrite Hp2.
          rewrite (Sy3 eq_refl eq_refl), Z.add_0_r.
          split; [reflexivity |]. split; [lia | exact Hled1].
    - exists (y + dy).
      pose proof (move_vertical_cases level_platforms p1) as Hc.
      cbn zeta in Hc. rewrite E in Hc. rewrite Hc.
      cbn [Player.rect Player.set_rect]. rewrite My.
      pose proof (first_hit_none _ _ E) as Hnone.
      rewrite Forall_forall in Hnone. rewrite My in Hnone.
      split; [reflexivity |]. split.
      + apply (vertical_miss_ok x' y dy); try assumption.
        exact (Hnone _ ground_in_level).
      + exact (Hnone _ ledge_in_level). }
  destruct H2 as (y' & Rp2 & Hy' & Hled2).
  (* clamp *)
  rewrite Rp2 in Hrect.
  assert (Hfinal : Player.rect (Player.update keys level_platforms p)
                   = Rect.mk (if x' <? 0 then 0
                              else if 800 <? x' + 32 then 768 else x')
                             y' 32 48).
  { rewrite Hrect. unfold Rect.left, Rect.right, SCREEN_W.
    cbn -[Z.ltb Z.add Z.sub].
    destruct (Z.ltb_spec x' 0); cbn -[Z.ltb Z.add Z.sub].
    - destruct (Z.ltb_spec 800 (0 + 32)); [lia | reflexivity].
    - destruct (Z.ltb_spec 800 (x' + 32)); reflexivity. }
  destruct (clamp_ok x' y' Hx' Hled2 _ eq_refl) as [Hx'' Hled3].
  unfold on_level. rewrite Hfinal.
  unfold Player.width, Player.height, SCREEN_W, ground_strip,
         Rect.left, Rect.right, Rect.bottom, Rect.top.
  cbn [Rect.x Rect.y Rect.w Rect.h Platform.rect Platform.init Rect.of_topleft].
  repeat split; try lia; try exact Hled3.
  - destruct Hvx as [-> | ->]; unfold PLAYER_SPEED, inject_Z; cbn [Z.opp]; lra.
  - destruct Hvx as [-> | ->]; unfold PLAYER_SPEED, inject_Z; lra.
Qed.

Lemma enemy_contact_rect enemies p :
  Player.rect (enemy_contact enemies p) = Player.rect p /\
  Player.vel_x (enemy_contact enemies p) = Player.vel_x p.
Proof.
  unfold enemy_contact, Player.take_damage.
  destruct (spritecollideany _ _); cbn zeta; split_ifs; split; reflexivity.
Qed.

Lemma fall_off_screen_rect p :
  Player.rect (fall_off_screen p) = Player.rect p /\
  Player.vel_x (fall_off_screen p) = Player.vel_x p.
Proof.
  unfold fall_off_screen. split_ifs; split; reflexivity.
Qed.

Lemma update_playing_rect keys w :
  Player.rect (player (update_playing keys w))
    = Player.rect (Player.update keys (platforms w) (player w)) /\
  Player.vel_x (player (update_playing keys w))
    = Player.vel_x (Player.update keys (platforms w) (player w)).
Proof.
  rewrite update_playing_player. cbn zeta.
  match goal with
  | |- context [fall_off_screen ?q] =>
      destruct (fall_off_screen_rect q) as [-> ->]
  end.
  match goal with
  | |- context [enemy_contact ?es ?q] =>
      destruct (enemy_contact_rect es q) as [-> ->]
  end.
  split; reflexivity.
Qed.

Lemma on_level_ext p p' :
  Player.rect p' = Player.rect p -> Player.vel_x p' = Player.vel_x p ->
  on_level p -> on_level p'.
Proof. unfold on_level. intros -> ->. tauto. Qed.

Lemma spawn_on_level : on_level (Player.init 60 490).
Proof.
  unfold on_level.
  repeat split; first [reflexivity | vm_compute; discriminate].
Qed.

Lemma reachable_on_level w :
  reachable w -> on_level (player w) /\ platforms w = level_platforms.
Proof.
  induction 1 as [rnd0 | f w w' _ IH H].
  - split; [exact spawn_on_level | reflexivity].
  - unfold frame in H.
    destruct (handle_events (rnd f) (events f) w) as [w1|] eqn:E;
      [| discriminate].
    assert (H1 : on_level (player w1) /\ platforms w1 = level_platforms).
    { destruct (handle_events_cases _ _ _ _ E) as [[_ ->] | [_ ->]];
        [exact IH | split; [exact spawn_on_level | reflexivity]]. }
    assert (H2 : on_level (player (update_playing (keys f) w1)) /\
                 platforms (update_playing (keys f) w1) = level_platforms).
    { destruct H1 as [Hp Hpl]. split.
      - destruct (update_playing_rect (keys f) w1) as [Hr Hv].
        apply (on_level_ext _ _ Hr Hv). rewrite Hpl.
        apply update_keeps_on_level. exact Hp.
      - rewrite <- Hpl. unfold update_playing.
        destruct (spritecollide_kill _ _). reflexivity. }
    destruct (state w1); injection H as <-; assumption.
Qed.

(** In the built level the player can never get below the ground strip
    or off the sides: in every world the main loop reaches, the player's
    rectangle is on screen horizontally and its bottom is not below the
    top of the ground.  Consequently the fall-off-screen rule never fires:
    after the player's update the test [rect.top > SCREEN_H + 50] is
    false, whatever keys are held. *)
Theorem player_never_falls_off_screen :
  forall w : World,
    reachable w ->
    0 <= Rect.left (Player.rect (player w)) /\
    Rect.right (Player.rect (player w)) <= SCREEN_W /\
    Rect.bottom (Player.rect (player w)) <= 560 /\
    (forall keys : Keys,
        let p1 := Player.update keys (platforms w) (player w) in
        Rect.bottom (Player.rect p1) <= 560 /\
        (SCREEN_H + 50 <? Rect.top (Player.rect p1)) = false /\
        fall_off_screen p1 = p1).
Proof.
  intros w Hw. destruct (reachable_on_level w Hw) as [Hp Hpl].
  assert (Hbot : forall p, on_level p ->
                   0 <= Rect.left (Player.rect p) /\
                   Rect.right (Player.rect p) <= SCREEN_W /\
                   Rect.bottom (Player.rect p) <= 560 /\
                   Rect.top (Player.rect p) <= 512).
  { intros p (Hpw & Hph & Hl & Hr & Hb & _).
    unfold ground_strip, Player.height, Rect.bottom, Rect.top in *.
    cbn in Hb. repeat split; try assumption; try lia. }
  destruct (Hbot _ Hp) as (Hl & Hr & Hb & _).
  split; [exact Hl |]. split; [exact Hr |]. split; [exact Hb |].
  intros k. cbn zeta. rewrite Hpl.
  destruct (Hbot _ (update_keeps_on_level k (player w) Hp))
    as (_ & _ & Hb1 & Ht).
  split; [exact Hb1 |]. split.
  - apply Z.ltb_ge. unfold SCREEN_H. lia.
  - apply fall_off_screen_miss. unfold SCREEN_H. lia.
Qed.

Lemma player_never_falls_off_screen_witness :
  Rect.bottom (Player.rect (player first_playing_world)) <= 560 /\
  fall_off_screen
    (Player.update no_keys (platforms first_playing_world)
                   (player first_playing_world))
  = Player.update no_keys (platforms first_playing_world)
                  (player first_playing_world).
Proof.
  destruct (player_never_falls_off_screen first_playing_world)
    as (_ & _ & Hb & Hk).
  - apply (reachable_frame confirm_frame (main_init (fun _ => 0))).
    + apply reachable_init.
    + reflexivity.
  - split; [exact Hb | apply (Hk no_keys)].
Defined.

(** ** How health is lost *)

Lemma enemy_contact_health enemies p :
  Player.health (enemy_contact enemies p) = Player.health p \/
  Player.health (enemy_contact enemies p) = Z.max 0 (Player.health p - 20).
Proof.
  unfold enemy_contact. destruct (spritecollideany _ _); [| left; reflexivity].
  destruct (Z.ltb_spec 0 (Player.invincible_timer p)) as [Hi | Hi].
  - left. rewrite take_damage_invincible by assumption. reflexivity.
  - right. apply (take_damage_vulnerable 20 p Hi).
Qed.

(** On the level's platforms a playing tick changes the health by enemy
    contact only. *)
Lemma tick_health keys w :
  on_level (player w) -> platforms w = level_platforms ->
  Player.health (player (update_playing keys w)) = Player.health (player w) \/
  Player.health (player (update_playing keys w))
    = Z.max 0 (Player.health (player w) - 20).
Proof.
  intros Hp Hpl.
  rewrite update_playing_player. cbn zeta.
  set (p1 := Player.update keys (platforms w) (player w)).
  set (p2 := Player.set_score _ p1).
  set (es := map _ (enemies w)).
  assert (Hon : on_level p1).
  { subst p1. rewrite Hpl. apply update_keeps_on_level. exact Hp. }
  destruct (enemy_contact_rect es p2) as [Hr _].
  rewrite fall_off_screen_miss.
  - destruct (enemy_contact_health es p2) as [-> | ->];
      subst p2; cbn [Player.health Player.set_score]; subst p1;
      rewrite update_health; auto.
  - rewrite Hr. subst p2. cbn [Player.rect Player.set_score].
    destruct Hon as (_ & Hh & _ & _ & Hb & _).
    unfold ground_strip, Player.height, Rect.bottom, Rect.top, SCREEN_H in *.
    cbn in Hb. lia.
Qed.

(** The health of the player is always one of 0, 20, 40, 60, 80, 100, and
    an iteration of the main loop that does not rebuild the level either
    keeps it or takes exactly 20 away: the only way to lose health in the
    built level is contact with an enemy. *)
Theorem health_lost_in_steps_of_twenty :
  (forall w : World,
      reachable w ->
      exists k, 0 <= k <= 5 /\ Player.health (player w) = 20 * k) /\
  (forall (f : Frame) (w w' : World),
      reachable w ->
      frame f w = Some w' ->
      rebuilds (events f) (state w) = false ->
      Player.health (player w') = Player.health (player w) \/
      (20 <= Player.health (player w) /\
       Player.health (player w') = Player.health (player w) - 20)).
Proof.
  assert (Hsteps : forall w : World,
             reachable w ->
             exists k, 0 <= k <= 5 /\ Player.health (player w) = 20 * k).
  { induction 1 as [rnd0 | f w w' Hw IH H].
    - exists 5. split; [lia | reflexivity].
    - destruct (reachable_on_level w Hw) as [Hp Hpl].
      unfold frame in H.
      destruct (handle_events (rnd f) (events f) w) as [w1|] eqn:E;
        [| discriminate].
      assert (H1 : (exists k, 0 <= k <= 5 /\
                              Player.health (player w1) = 20 * k) /\
                   on_level (player w1) /\ platforms w1 = level_platforms).
      { destruct (handle_events_cases _ _ _ _ E) as [[_ ->] | [_ ->]].
        - auto.
        - split; [exists 5; split; [lia | reflexivity] |].
          split; [exact spawn_on_level | reflexivity]. }
      destruct H1 as ((k & Hk & Hh) & Hp1 & Hpl1).
      assert (H2 : exists k', 0 <= k' <= 5 /\
                     Player.health (player (update_playing (keys f) w1))
                     = 20 * k').
      { destruct (tick_health (keys f) w1 Hp1 Hpl1) as [-> | ->].
        - exists k. auto.
        - exists (Z.max 0 (k - 1)). split; lia. }
      destruct (state w1); injection H as <-;
        first [exact H2 | exists k; auto]. }
  split; [exact Hsteps |].
  intros f w w' Hw Hf Hr.
  destruct (Hsteps w Hw) as (k & Hk & Hh).
  destruct (reachable_on_level w Hw) as [Hp Hpl].
  unfold frame in Hf.
  destruct (handle_events (rnd f) (events f) w) as [w1|] eqn:E;
    [| discriminate].
  destruct (handle_events_cases _ _ _ _ E) as [[_ ->] | [Hr' _]];
    [| congruence].
  pose proof (phase_world_cases w Hw) as Hphase.
  destruct (state w) eqn:Hs; injection Hf as <-; try (left; reflexivity).
  destruct (tick_health (keys f) w Hp Hpl) as [-> | ->];
    [left; reflexivity | right].
  destruct Hphase as [Hpos _]. split; lia.
Qed.

Lemma health_lost_in_steps_of_twenty_witness :
  exists k, 0 <= k <= 5 /\ Player.health (player first_playing_world) = 20 * k.
Proof.
  destruct health_lost_in_steps_of_twenty as [H _].
  apply (H first_playing_world).
  apply (reachable_frame confirm_frame (main_init (fun _ => 0))).
  - apply reachable_init.
  - reflexivity.
Defined.

(** ** Enemies on their platforms *)

(** Where the ground snap leaves an enemy: on top of the first platform
    its probe (one pixel down, at its new x) hit, else where it was. *)
Lemma enemy_update_probe platforms e :
  exists x',
    Rect.x (Enemy.rect (Enemy.update platforms e)) = x' /\
    Rect.y (Enemy.rect (Enemy.update platforms e)) =
    match spritecollideany
            (Rect.mk x' (Rect.y (Enemy.rect e) + 1)
                     (Rect.w (Enemy.rect e)) (Rect.h (Enemy.rect e)))
            (map Platform.rect platforms) with
    | Some hit => Rect.top hit - Rect.h (Enemy.rect e)
    | None => Rect.y (Enemy.rect e)
    end.
Proof.
  destruct e as [[x y w h] v mn mx].
  unfold Enemy.update, spritecollideany, Rect.left, Rect.right.
  cbn -[Z.leb Z.mul Z.add Z.sub].
  destruct (Z.leb_spec (x + v) mn); destruct (Z.leb_spec mx (x + v + w));
    unfold Rect.set_y, Rect.set_x, Rect.set_bottom, Rect.top,
           Enemy.set_rect, Enemy.set_vel_x;
    cbn -[Z.leb Z.mul Z.add Z.sub];
    match goal with
    | |- context [find ?f ?l] => destruct (find f l) eqn:E
    end;
    cbn -[Z.leb Z.mul Z.add Z.sub];
    (eexists; split; [reflexivity |]);
    rewrite E; cbn -[Z.leb Z.mul Z.add Z.sub]; lia.
Qed.

Lemma enemy_update_height platforms e :
  Rect.h (Enemy.rect (Enemy.update platforms e)) = Rect.h (Enemy.rect e) /\
  Rect.w (Enemy.rect (Enemy.update platforms e)) = Rect.w (Enemy.rect e).
Proof.
  destruct e as [[x y w h] v mn mx].
  unfold Enemy.update, spritecollideany, Rect.left, Rect.right.
  cbn -[Z.leb Z.mul Z.add Z.sub].
  destruct (Z.leb_spec (x + v) mn); destruct (Z.leb_spec mx (x + v + w));
    cbn -[Z.leb Z.mul Z.add Z.sub];
    destruct (find _ (map Platform.rect platforms));
    cbn -[Z.leb Z.mul Z.add Z.sub]; split; reflexivity.
Qed.

(** On the level's platforms, a tick keeps an enemy at its post. *)
Lemma enemy_update_at_post e :
  at_post e -> at_post (Enemy.update level_platforms e).
Proof.
  intros (Hpat & Hh & Hpost).
  pose proof (enemy_update_patrolling level_platforms e Hpat) as Hpat'.
  destruct (enemy_update_bounds level_platforms e) as [Hmn Hmx].
  destruct (enemy_update_height level_platforms e) as [Hh' Hw'].
  destruct (enemy_update_probe level_platforms e) as (x' & Hx & Hy).
  split; [exact Hpat' |]. split; [congruence |].
  rewrite Hmn, Hmx.
  assert (Hyeq : Rect.y (Enemy.rect (Enemy.update level_platforms e))
                 = Rect.y (Enemy.rect e)); [| rewrite Hyeq; exact Hpost].
  rewrite Hy.
  destruct (spritecollideany _ _) as [hit|] eqn:E; [| reflexivity].
  unfold spritecollideany in E. apply find_some in E.
  destruct E as [Hin Hc].
  apply in_map_iff in Hin. destruct Hin as (plat & <- & Hin).
  destruct Hpat' as (_ & Hw1 & Hl1 & Hr1 & _).
  unfold Rect.left, Rect.right in Hl1, Hr1.
  rewrite Hmn, Hmx, Hx, Hw' in *.
  destruct Hpat as (_ & Hw0 & _).
  clear Hx Hy Hh' Hw' Hw1 Hmn Hmx.
  rewrite Hw0, Hh in *. unfold Enemy.width, Enemy.height in *.
  unfold level_posts in Hpost. cbn in Hpost.
  destruct Hpost as [Hq | [Hq | [Hq | [Hq | [Hq | []]]]]];
    injection Hq as Hq1 Hq2 Hq3;
    rewrite <- Hq1, <- Hq2 in *; rewrite <- Hq3 in *;
    clear Hq1 Hq2 Hq3;
    each_platform Hin; geometry.
Qed.

Lemma level_enemies_at_post rnd0 :
  Forall at_post (enemies (restart rnd0)).
Proof.
  apply Forall_forall. intros e He.
  split; [apply (level_enemies_patrolling rnd0); exact He |].
  cbn in He.
  repeat (destruct He as [He | He];
          [subst e; split; [reflexivity | cbn; tauto] |]).
  contradiction.
Qed.

Lemma reachable_at_post w :
  reachable w -> Forall at_post (enemies w) /\ platforms w = level_platforms.
Proof.
  induction 1 as [rnd0 | f w w' _ IH H].
  - split; [exact (level_enemies_at_post rnd0) | reflexivity].
  - unfold frame in H.
    destruct (handle_events (rnd f) (events f) w) as [w1|] eqn:E;
      [| discriminate].
    assert (H1 : Forall at_post (enemies w1) /\ platforms w1 = level_platforms).
    { destruct (handle_events_cases _ _ _ _ E) as [[_ ->] | [_ ->]];
        [exact IH | split; [exact (level_enemies_at_post (rnd f)) | reflexivity]]. }
    assert (H2 : Forall at_post (enemies (update_playing (keys f) w1)) /\
                 platforms (update_playing (keys f) w1) = level_platforms).
    { destruct H1 as [He Hpl]. split.
      - rewrite update_playing_enemies, Hpl. apply Forall_map.
        revert He. apply Forall_impl. exact enemy_update_at_post.
      - rewrite <- Hpl. unfold update_playing.
        destruct (spritecollide_kill _ _). reflexivity. }
    destruct (state w1); injection H as <-; assumption.
Qed.

Lemma at_post_stands e :
  at_post e ->
  Rect.y (Enemy.rect e) + Rect.h (Enemy.rect e) = Rect.bottom (Enemy.rect e) /\
  exists plat, In plat level_platforms /\ stands_on (Enemy.rect e) plat.
Proof.
  intros ((_ & Hw & Hl & Hr & _) & Hh & Hpost).
  split; [reflexivity |].
  unfold stands_on, Rect.bottom, Rect.left, Rect.right, Rect.top in *.
  rewrite Hw, Hh in *. unfold Enemy.width, Enemy.height in *.
  unfold level_posts in Hpost. cbn in Hpost.
  destruct Hpost as [Hq | [Hq | [Hq | [Hq | [Hq | []]]]]];
    injection Hq as Hq1 Hq2 Hq3;
    rewrite <- Hq1, <- Hq2 in *; rewrite <- Hq3 in *.
  - exists ground_strip. split; [exact ground_in_level | cbn; lia].
  - exists ground_strip. split; [exact ground_in_level | cbn; lia].
  - exists (Platform.init 280 380 120 18 PLAT).
    split; [unfold level_platforms; cbn; tauto | cbn; lia].
  - exists (Platform.init 570 350 130 18 PLAT).
    split; [unfold level_platforms; cbn; tauto | cbn; lia].
  - exists (Platform.init 200 280 100 18 PLAT).
    split; [unfold level_platforms; cbn; tauto | cbn; lia].
Qed.

(** In every world the main loop reaches, every enemy stands on a
    platform of the level: the bottom of its rectangle is the top of that
    platform and it does not reach over either end of it.  The ground
    snap never lifts, drops or strands an enemy. *)
Theorem enemies_stand_on_platforms :
  forall w : World,
    reachable w ->
    Forall (fun e => exists plat,
                In plat (platforms w) /\ stands_on (Enemy.rect e) plat)
           (enemies w).
Proof.
  intros w Hw. destruct (reachable_at_post w Hw) as [He Hpl].
  rewrite Hpl. revert He. apply Forall_impl.
  intros e Hpost. exact (proj2 (at_post_stands e Hpost)).
Qed.

Lemma enemies_stand_on_platforms_witness :
  Forall (fun e => exists plat,
              In plat (platforms first_playing_world) /\
              stands_on (Enemy.rect e) plat)
         (enemies first_playing_world).
Proof.
  apply (enemies_stand_on_platforms first_playing_world).
  apply (reachable_frame confirm_frame (main_init (fun _ => 0))).
  - apply reachable_init.
  - reflexivity.
Defined.
